(** * Voice calendar assistant: transcript extraction and session controller

    A shallow embedding of [src/app.tsx], which holds two React components
    ([VoiceCalendarAssistant] with its [processNaturalLanguage] extractor, and
    [App] with its [processTranscript] extractor), followed by the properties
    of the extractors and of the submit / reload state machine.

    Conventions.
    - A JavaScript string is a [string]; its characters stand for the code
      units of the source string.
    - A JavaScript number used as an index is a [Z] ([indexOf] answers [-1]).
    - A value that may be [undefined] is a [JSVal].
    - [new Date()] reads an injected clock, given as the UTC fields of the
      instant; a [Date] object coming from a library may be an Invalid Date.
    - View-only state of the components ([selectedDate], [form]) and the JSX
      markup are left out, apart from the [disabled] attribute of the submit
      button, which decides whether a click reaches [handleSubmit].
    - An [async] handler is a tree of effects; one turn of the event loop
      runs a handler up to its next [await].  A call in flight is settled
      by a later event: fulfilled, it acts on its store at that moment;
      rejected, it leaves the store as it is.  Calls may settle in any
      order, and user events may come in between. *)

From Stdlib Require Import String Ascii List ZArith Bool Lia Arith.
Import ListNotations.
Local Open Scope string_scope.
Local Open Scope Z_scope.

(** ** JavaScript values and string primitives *)

Inductive JSVal : Type :=
| undefined
| str (s : string).

(** The draft object [{ date, time, text }] handed to the store. *)
Record Draft : Type := mkDraft {
  date : JSVal;
  time : JSVal;
  text : string
}.

Definition Error : Type := string.

Inductive Result (A : Type) : Type :=
| Ok (a : A)
| Err (e : Error).
Arguments Ok {A} a.
Arguments Err {A} e.

(** [s.split(sep)] for a one-character separator: the pieces between the
    separators, empty pieces included; never the empty array. *)
Fixpoint split (sep : ascii) (s : string) : list string :=
  match s with
  | EmptyString => [EmptyString]
  | String c rest =>
      if Ascii.eqb c sep then EmptyString :: split sep rest
      else match split sep rest with
           | [] => [String c EmptyString]
           | w :: ws => String c w :: ws
           end
  end.

(** [words.indexOf(x)]: position of the first element equal to [x], else -1. *)
Fixpoint indexOf (x : string) (words : list string) : Z :=
  match words with
  | [] => -1
  | w :: rest =>
      if String.eqb w x then 0
      else let i := indexOf x rest in
           if i =? -1 then -1 else i + 1
  end.

(** [words[i]]: the element at index [i], [undefined] outside the array. *)
Definition at_index (words : list string) (i : Z) : JSVal :=
  if i <? 0 then undefined
  else match nth_error words (Z.to_nat i) with
       | Some w => str w
       | None => undefined
       end.

(** [ws.join(sep)]: the way an utterance is put together from its words. *)
Fixpoint join (sep : ascii) (ws : list string) : string :=
  match ws with
  | [] => EmptyString
  | w :: rest =>
      match rest with
      | [] => w
      | _ :: _ => w ++ String sep (join sep rest)
      end
  end.

(** ** Dates: [toISOString] *)

Record UTCFields : Type := mkUTC {
  utcFullYear : Z;
  utcMonth : Z;        (* 1..12, as printed *)
  utcDate : Z;
  utcHours : Z;
  utcMinutes : Z;
  utcSeconds : Z;
  utcMilliseconds : Z
}.

Inductive Date : Type :=
| InvalidDate
| ValidDate (f : UTCFields).

Definition digitChar (d : Z) : ascii := ascii_of_nat (48 + Z.to_nat d).

(** [n] in decimal, zero-padded (and truncated) to [width] digits. *)
Fixpoint padded (width : nat) (n : Z) : string :=
  match width with
  | O => EmptyString
  | S w => padded w (n / 10) ++ String (digitChar (n mod 10)) EmptyString
  end.

(** Years 0..9999 print with four digits, the others with a sign and six. *)
Definition isoYear (y : Z) : string :=
  if (0 <=? y) && (y <=? 9999) then padded 4 y
  else (if y <? 0 then "-" else "+") ++ padded 6 (Z.abs y).

Definition isoDate (f : UTCFields) : string :=
  isoYear (utcFullYear f) ++ "-" ++ padded 2 (utcMonth f) ++ "-" ++
  padded 2 (utcDate f).

Definition isoTime (f : UTCFields) : string :=
  padded 2 (utcHours f) ++ ":" ++ padded 2 (utcMinutes f) ++ ":" ++
  padded 2 (utcSeconds f) ++ "." ++ padded 3 (utcMilliseconds f) ++ "Z".

(** [d.toISOString()] for a valid date: [YYYY-MM-DDTHH:mm:ss.sssZ]. *)
Definition isoString (f : UTCFields) : string :=
  isoDate f ++ "T" ++ isoTime f.

(** [d.toISOString()]: a RangeError on an Invalid Date. *)
Definition toISOString (d : Date) : Result string :=
  match d with
  | InvalidDate => Err "RangeError: Invalid time value"
  | ValidDate f => Ok (isoString f)
  end.

(** [new Date().toISOString().split('T')[0]] with the clock reading [now]. *)
Definition today (now : UTCFields) : JSVal :=
  at_index (split "T" (isoString now)) 0.

(** *** Instants and time zones

    A [Date] holds an instant, in milliseconds since 1970-01-01T00:00Z.
    [toISOString] prints its UTC fields; the local calendar day is the day
    of the instant shifted by the offset of the zone. *)

(** Year, month and day of the day number [z] (days since 1970-01-01) in
    the proleptic Gregorian calendar. *)
Definition civil_from_days (z : Z) : Z * Z * Z :=
  let z' := z + 719468 in
  let era := z' / 146097 in
  let doe := z' - era * 146097 in
  let yoe := (doe - doe / 1460 + doe / 36524 - doe / 146096) / 365 in
  let doy := doe - (365 * yoe + yoe / 4 - yoe / 100) in
  let mp := (5 * doy + 2) / 153 in
  let d := doy - (153 * mp + 2) / 5 + 1 in
  let m := if mp <? 10 then mp + 3 else mp - 9 in
  let y := yoe + era * 400 + (if m <=? 2 then 1 else 0) in
  (y, m, d).

(** The calendar fields of the time value [t]. *)
Definition fieldsOf (t : Z) : UTCFields :=
  let '(y, m, d) := civil_from_days (t / 86400000) in
  let ms := t mod 86400000 in
  mkUTC y m d (ms / 3600000) ((ms / 60000) mod 60) ((ms / 1000) mod 60)
        (ms mod 1000).

(** A reading of the clock: the instant, and the offset of the local zone
    from UTC at that instant, in minutes east of Greenwich. *)
Record Instant : Type := mkInstant {
  epochMs : Z;
  zoneMinutes : Z
}.

(** What the UTC getters and [toISOString] see. *)
Definition utcNow (i : Instant) : UTCFields := fieldsOf (epochMs i).

(** What the local getters see. *)
Definition localNow (i : Instant) : UTCFields :=
  fieldsOf (epochMs i + zoneMinutes i * 60000).

(** The local calendar day, as [YYYY-MM-DD]. *)
Definition localDate (i : Instant) : string := isoDate (localNow i).

(** ** The keyword-anchored extractor ([App], src/app.tsx 380-392) *)

Definition processTranscript (now : UTCFields) (transcript : string) : Draft :=
  let words := split " " transcript in
  let dateIndex := indexOf "on" words in
  let timeIndex := indexOf "at" words in
  {| date := if negb (dateIndex =? -1) then at_index words (dateIndex + 1)
             else today now;
     time := if negb (timeIndex =? -1) then at_index words (timeIndex + 1)
             else str "12:00";
     text := transcript |}.

(** ** Regular expressions: the fragment used by [timeRegex]

    A backtracking matcher in continuation style, as the language defines
    [RegExp.prototype.exec]: [matchFrom r s k] matches [r] at the start of [s]
    and hands the rest of the input to [k]; a quantifier is greedy and gives
    back one repetition at a time when the continuation fails. *)

Inductive Regex : Type :=
| Digit                              (* \d *)
| Lit (c : ascii)                    (* a literal character *)
| Seq (r1 r2 : Regex)                (* r1 r2 *)
| Rep (r : Regex) (lo hi : nat).     (* r{lo,hi}, greedy *)

Definition isDigit (c : ascii) : bool :=
  let n := nat_of_ascii c in ((48 <=? n) && (n <=? 57))%nat.

Fixpoint matchFrom (r : Regex) (s : string) (k : string -> option string)
  : option string :=
  match r with
  | Digit =>
      match s with
      | String c rest => if isDigit c then k rest else None
      | EmptyString => None
      end
  | Lit a =>
      match s with
      | String c rest => if Ascii.eqb c a then k rest else None
      | EmptyString => None
      end
  | Seq r1 r2 => matchFrom r1 s (fun rest => matchFrom r2 rest k)
  | Rep r1 lo0 hi0 =>
      (fix rep (lo hi : nat) (s : string) (k : string -> option string)
           {struct hi} : option string :=
         match hi with
         | O => match lo with O => k s | S _ => None end
         | S hi' =>
             match matchFrom r1 s (fun rest => rep (pred lo) hi' rest k) with
             | Some m => Some m
             | None => match lo with O => k s | S _ => None end
             end
         end) lo0 hi0 s k
  end.

(** The text consumed by a match that started on [s] and left [rest]. *)
Definition consumed (s rest : string) : string :=
  substring 0 (String.length s - String.length rest) s.

(** [s.match(r)[0]] for a regular expression without flags: the match at the
    leftmost position where there is one. *)
Fixpoint regexExec (r : Regex) (s : string) : option string :=
  match matchFrom r s Some with
  | Some rest => Some (consumed s rest)
  | None =>
      match s with
      | EmptyString => None
      | String _ s' => regexExec r s'
      end
  end.

(** [/(\d{1,2}):(\d{2})/]; the groups only record captures. *)
Definition timeRegex : Regex :=
  Seq (Rep Digit 1 2) (Seq (Lit ":") (Rep Digit 2 2)).

(** [toLowerCase] on the letters A-Z; other characters are left as they
    are.  Its result only feeds the tokenizer, whose tokens are not read. *)
Definition lowerChar (c : ascii) : ascii :=
  let n := nat_of_ascii c in
  if ((65 <=? n) && (n <=? 90))%nat then ascii_of_nat (n + 32) else c.

Fixpoint toLowerCase (s : string) : string :=
  match s with
  | EmptyString => EmptyString
  | String c rest => String (lowerChar c) (toLowerCase rest)
  end.

(** ** The pattern-anchored extractor (src/app.tsx 15-34)

    The [natural] package is an outside library, not part of the source:
    its word tokenizer and its date-phrase recognizer are parameters, and
    nothing is assumed of them but their shape.  The recognizer answers a
    falsy value ([None]) or a [Date] object, which may be an Invalid Date;
    what it answers on which text is left open. *)

Record NaturalLib : Type := mkNatural {
  tokenize : string -> list string;        (* tokenizer.tokenize *)
  parse : string -> option Date            (* dateParser.parse *)
}.

Definition processNaturalLanguage (N : NaturalLib) (now : UTCFields)
    (text : string) : Result Draft :=
  let tokens := tokenize N (toLowerCase text) in
  let parsed := parse N text in
  let time :=
    match regexExec timeRegex text with
    | Some timeMatch => timeMatch
    | None => "12:00"
    end in
  match parsed with
  | Some d =>
      match toISOString d with
      | Ok iso => Ok (mkDraft (at_index (split "T" iso) 0) (str time) text)
      | Err e => Err e
      end
  | None => Ok (mkDraft (today now) (str time) text)
  end.

(** ** Outside collaborators of the controller

    The reminder store ([@/lib/calendarApi]), the event store
    ([@/lib/googleCalendarApi]) and the AI responder ([@/lib/aiApi]) are
    reached through asynchronous calls.  Each store is a state of an unknown
    type on which a successful call acts; what the calls do to it is left
    open. *)

Record Backend : Type := mkBackend {
  Id : Type;
  FormData : Type;
  Reminder : Type;
  CalendarEvent : Type;
  ReminderStore : Type;
  EventStore : Type;
  getReminders : ReminderStore -> list Reminder;
  addReminder : Draft -> ReminderStore -> ReminderStore;
  updateReminder : Id -> FormData -> ReminderStore -> ReminderStore;
  deleteReminder : Id -> ReminderStore -> ReminderStore;
  getEvents : EventStore -> list CalendarEvent;
  addEvent : Draft -> EventStore -> EventStore;
  updateEvent : Id -> FormData -> EventStore -> EventStore;
  deleteEvent : Id -> EventStore -> EventStore;
  getAIResponse : string -> string
}.

(** Modelled from the spec: the two stores live in [@/lib/calendarApi] and
    [@/lib/googleCalendarApi], which are not part of the sources at hand.
    Section 6 gives each store the operations [list() -> [Reminder]],
    [create(DraftEntry) -> Reminder], [update(id, partial) -> void] and
    [delete(id) -> void] over entries identified by an opaque id.  This
    instance keeps the entries in creation order (server order). *)
Record Entry : Type := mkEntry {
  entryId : nat;
  entryText : string;
  entryDraft : Draft
}.

Definition freshId (st : list Entry) : nat :=
  S (fold_right Nat.max O (map entryId st)).

Definition createEntry (d : Draft) (st : list Entry) : list Entry :=
  st ++ [mkEntry (freshId st) (text d) d].

Definition updateEntry (id : nat) (newText : string) (st : list Entry)
  : list Entry :=
  map (fun e => if Nat.eqb (entryId e) id
                then mkEntry (entryId e) newText (entryDraft e) else e) st.

Definition deleteEntry (id : nat) (st : list Entry) : list Entry :=
  filter (fun e => negb (Nat.eqb (entryId e) id)) st.

Definition listBackend : Backend :=
  mkBackend nat string Entry Entry (list Entry) (list Entry)
    (fun st => st) createEntry updateEntry deleteEntry
    (fun st => st) createEntry updateEntry deleteEntry
    (fun t => "You said: " ++ t).

(** A clock reading and a [natural] library whose recognizer finds nothing,
    to run the definitions on. *)
Definition clock0 : UTCFields := mkUTC 2024 5 17 9 30 0 0.

Definition noNatural : NaturalLib :=
  mkNatural (fun s => split " " s) (fun _ => None).

(** A recognizer that answers the same valid date on every text. *)
Definition fixedNatural (f : UTCFields) : NaturalLib :=
  mkNatural (fun s => split " " s) (fun _ => Some (ValidDate f)).

(** A recognizer that answers an Invalid Date on every text. *)
Definition badNatural : NaturalLib :=
  mkNatural (fun s => split " " s) (fun _ => Some InvalidDate).

(** *** Wording of the time pattern: [H:MM] or [HH:MM] *)

Definition ClockShape (m : string) : Prop :=
  (exists h m1 m2,
      isDigit h = true /\ isDigit m1 = true /\ isDigit m2 = true /\
      m = String h (String ":" (String m1 (String m2 "")))) \/
  (exists h1 h2 m1 m2,
      isDigit h1 = true /\ isDigit h2 = true /\
      isDigit m1 = true /\ isDigit m2 = true /\
      m = String h1 (String h2 (String ":" (String m1 (String m2 ""))))).

(** [m] is a substring of [s] of that shape, and none starts earlier. *)
Definition FirstClock (s m : string) : Prop :=
  exists pre post,
    s = pre ++ m ++ post /\ ClockShape m /\
    forall pre' m' post',
      s = pre' ++ m' ++ post' -> ClockShape m' ->
      (String.length pre <= String.length pre')%nat.

Definition NoClock (s : string) : Prop :=
  forall pre m post, s = pre ++ m ++ post -> ~ ClockShape m.

Fixpoint has_char (c : ascii) (s : string) : bool :=
  match s with
  | EmptyString => false
  | String a rest => Ascii.eqb a c || has_char c rest
  end.

(** The two components of the source file. *)
Inductive Component : Type :=
| App
| VoiceCalendarAssistant.

(** Which handler started an asynchronous task. *)
Inductive Origin : Type :=
| FromMount
| FromSubmit
| FromUpdateReminder
| FromDeleteReminder
| FromUpdateEvent
| FromDeleteEvent
| FromUser.

(** How a call in flight ends. *)
Inductive Outcome : Type :=
| Fulfil
| Reject (e : Error).

(** What the page runs in when the mount effect fires. *)
Inductive Browser : Type :=
| NoWindow          (* [typeof window === 'undefined'] *)
| WithoutSpeech     (* neither [SpeechRecognition] nor its webkit name *)
| WithSpeech.

(** The element that has the focus when a key goes down. *)
Inductive Target : Type :=
| TextInput
| Body.

Definition failureMessage : string :=
  "Sorry, there was an error processing your request.".

Section Controller.

Variable B : Backend.
Variable N : NaturalLib.

(** *** Asynchronous handlers as trees *)

Inductive Call : Type :=
| GetReminders
| AddReminder (d : Draft)
| UpdateReminder (id : Id B) (data : FormData B)
| DeleteReminder (id : Id B)
| GetEvents
| AddEvent (d : Draft)
| UpdateEvent (id : Id B) (data : FormData B)
| DeleteEvent (id : Id B)
| GetAIResponse (t : string).

(** The value a fulfilled call resolves to. *)
Definition Resp (c : Call) : Type :=
  match c with
  | GetReminders => list (Reminder B)
  | GetEvents => list (CalendarEvent B)
  | GetAIResponse _ => string
  | _ => unit
  end.

(** Synchronous effects: the state setters, the recognizer, the console. *)
Inductive SyncEff : Type :=
| SetIsListening (b : bool)
| SetTranscript (s : string)
| SetReminders (l : list (Reminder B))
| SetAiResponse (s : string)
| SetIsLoading (b : bool)
| SetEvents (l : list (CalendarEvent B))
| RecognitionStart
| RecognitionStop
| ConsoleError (msg : string) (e : Error).

(** An [async] function body: it returns, throws, performs a synchronous
    effect, or awaits a call and resumes with its outcome. *)
Inductive Async (A : Type) : Type :=
| Ret (a : A)
| Throw (e : Error)
| Eff (e : SyncEff) (k : Async A)
| Await (c : Call) (k : Result (Resp c) -> Async A).
Arguments Ret {A} a.
Arguments Throw {A} e.
Arguments Eff {A} e k.
Arguments Await {A} c k.

Fixpoint bind {A C : Type} (m : Async A) (f : A -> Async C) : Async C :=
  match m with
  | Ret a => f a
  | Throw e => Throw e
  | Eff e k => Eff e (bind k f)
  | Await c k => Await c (fun r => bind (k r) f)
  end.

Notation "x <- m ;; k" := (bind m (fun x => k))
  (at level 61, m at next level, right associativity).
Notation "m ;; k" := (bind m (fun _ => k))
  (at level 61, right associativity).

(** [try { m } catch (error) { h error }] *)
Fixpoint try_catch {A : Type} (m : Async A) (h : Error -> Async A) : Async A :=
  match m with
  | Ret a => Ret a
  | Throw e => h e
  | Eff e k => Eff e (try_catch k h)
  | Await c k => Await c (fun r => try_catch (k r) h)
  end.

(** [try { m } finally { f }] *)
Fixpoint try_finally {A : Type} (m : Async A) (f : Async unit) : Async A :=
  match m with
  | Ret a => f ;; Ret a
  | Throw e => f ;; Throw e
  | Eff e k => Eff e (try_finally k f)
  | Await c k => Await c (fun r => try_finally (k r) f)
  end.

Definition eff (e : SyncEff) : Async unit := Eff e (Ret tt).

(** [await c]: the value of a fulfilled call; a rejection is thrown. *)
Definition call (c : Call) : Async (Resp c) :=
  Await c (fun r => match r with Ok v => Ret v | Err e => Throw e end).

(** A synchronous computation that may throw. *)
Definition lift {A : Type} (r : Result A) : Async A :=
  match r with Ok a => Ret a | Err e => Throw e end.

(** *** The handlers (src/app.tsx 83-145 and 331-378) *)

Definition toggleListening (isListening : bool) : Async unit :=
  (if isListening then eff RecognitionStop else eff RecognitionStart) ;;
  eff (SetIsListening (negb isListening)).

Definition handleKeyPress (isListening : bool) (code : string) : Async unit :=
  if String.eqb code "Space" then toggleListening isListening else Ret tt.

Definition loadReminders : Async unit :=
  fetchedReminders <- call GetReminders ;;
  eff (SetReminders fetchedReminders).

Definition handleUpdateReminder (id : Id B) (data : FormData B) : Async unit :=
  call (UpdateReminder id data) ;;
  loadReminders.

Definition handleDeleteReminder (id : Id B) : Async unit :=
  call (DeleteReminder id) ;;
  loadReminders.

Definition loadEvents : Async unit :=
  fetchedEvents <- call GetEvents ;;
  eff (SetEvents fetchedEvents).

Definition handleUpdateEvent (id : Id B) (data : FormData B) : Async unit :=
  call (UpdateEvent id data) ;;
  loadEvents.

Definition handleDeleteEvent (id : Id B) : Async unit :=
  call (DeleteEvent id) ;;
  loadEvents.

Definition onSubmitError (error : Error) : Async unit :=
  eff (ConsoleError "Error processing request:" error) ;;
  eff (SetAiResponse failureMessage).

(** [handleSubmit] of [App] (340-363); [transcript] is the state value the
    handler closed over when the click happened. *)
Definition handleSubmitApp (now : UTCFields) (transcript : string)
  : Async unit :=
  eff (SetIsLoading true) ;;
  try_finally
    (try_catch
       (let d := processTranscript now transcript in
        call (AddReminder (mkDraft (date d) (time d) (text d))) ;;
        aiResp <- call (GetAIResponse transcript) ;;
        eff (SetAiResponse aiResp) ;;
        loadReminders ;;
        eff (SetTranscript ""))
       onSubmitError)
    (eff (SetIsLoading false)).

(** [handleSubmit] of [VoiceCalendarAssistant] (92-115). *)
Definition handleSubmitVoice (now : UTCFields) (transcript : string)
  : Async unit :=
  eff (SetIsLoading true) ;;
  try_finally
    (try_catch
       (d <- lift (processNaturalLanguage N now transcript) ;;
        call (AddEvent (mkDraft (date d) (time d) (text d))) ;;
        aiResp <- call (GetAIResponse transcript) ;;
        eff (SetAiResponse aiResp) ;;
        loadEvents ;;
        eff (SetTranscript ""))
       onSubmitError)
    (eff (SetIsLoading false)).

Definition handleSubmit (c : Component) : UTCFields -> string -> Async unit :=
  match c with
  | App => handleSubmitApp
  | VoiceCalendarAssistant => handleSubmitVoice
  end.

(** *** Component state and the world around it *)

(** The [useState] cells of a component. *)
Record Comp : Type := mkComp {
  isListening : bool;
  transcript : string;
  reminders : list (Reminder B);
  aiResponse : string;
  isLoading : bool;
  events : list (CalendarEvent B)
}.

(** A call in flight, with the rest of the handler that awaits it. *)
Record Pending : Type := mkPending {
  origin : Origin;
  awaited : Call;
  resume : Result (Resp awaited) -> Async unit
}.

(** The component, the recognizer, the two stores and the calls in flight.
    [issued], [console], [unhandled], [lastReminders] and [lastEvents] are
    history: the calls sent so far, what was logged, the rejections nobody
    caught, and the answer of the last fulfilled [getReminders] /
    [getEvents]. *)
Record World : Type := mkWorld {
  ui : Comp;
  capturing : bool;
  reminderStore : ReminderStore B;
  eventStore : EventStore B;
  pending : list Pending;
  issued : list Call;
  console : list (string * Error);
  unhandled : list Error;
  lastReminders : option (list (Reminder B));
  lastEvents : option (list (CalendarEvent B))
}.

Definition with_ui (u : Comp) (w : World) : World :=
  mkWorld u (capturing w) (reminderStore w) (eventStore w) (pending w)
          (issued w) (console w) (unhandled w) (lastReminders w) (lastEvents w).

Definition with_capturing (b : bool) (w : World) : World :=
  mkWorld (ui w) b (reminderStore w) (eventStore w) (pending w)
          (issued w) (console w) (unhandled w) (lastReminders w) (lastEvents w).

Definition with_reminderStore (st : ReminderStore B) (w : World) : World :=
  mkWorld (ui w) (capturing w) st (eventStore w) (pending w)
          (issued w) (console w) (unhandled w) (lastReminders w) (lastEvents w).

Definition with_eventStore (st : EventStore B) (w : World) : World :=
  mkWorld (ui w) (capturing w) (reminderStore w) st (pending w)
          (issued w) (console w) (unhandled w) (lastReminders w) (lastEvents w).

Definition with_pending (p : list Pending) (w : World) : World :=
  mkWorld (ui w) (capturing w) (reminderStore w) (eventStore w) p
          (issued w) (console w) (unhandled w) (lastReminders w) (lastEvents w).

Definition with_issued (l : list Call) (w : World) : World :=
  mkWorld (ui w) (capturing w) (reminderStore w) (eventStore w) (pending w)
          l (console w) (unhandled w) (lastReminders w) (lastEvents w).

Definition with_console (l : list (string * Error)) (w : World) : World :=
  mkWorld (ui w) (capturing w) (reminderStore w) (eventStore w) (pending w)
          (issued w) l (unhandled w) (lastReminders w) (lastEvents w).

Definition with_unhandled (l : list Error) (w : World) : World :=
  mkWorld (ui w) (capturing w) (reminderStore w) (eventStore w) (pending w)
          (issued w) (console w) l (lastReminders w) (lastEvents w).

Definition with_lastReminders (l : list (Reminder B)) (w : World) : World :=
  mkWorld (ui w) (capturing w) (reminderStore w) (eventStore w) (pending w)
          (issued w) (console w) (unhandled w) (Some l) (lastEvents w).

Definition with_lastEvents (l : list (CalendarEvent B)) (w : World) : World :=
  mkWorld (ui w) (capturing w) (reminderStore w) (eventStore w) (pending w)
          (issued w) (console w) (unhandled w) (lastReminders w) (Some l).

(** A state setter replaces its cell. *)
Definition set_state (e : SyncEff) (u : Comp) : Comp :=
  match e with
  | SetIsListening b =>
      mkComp b (transcript u) (reminders u) (aiResponse u) (isLoading u) (events u)
  | SetTranscript s =>
      mkComp (isListening u) s (reminders u) (aiResponse u) (isLoading u) (events u)
  | SetReminders l =>
      mkComp (isListening u) (transcript u) l (aiResponse u) (isLoading u) (events u)
  | SetAiResponse s =>
      mkComp (isListening u) (transcript u) (reminders u) s (isLoading u) (events u)
  | SetIsLoading b =>
      mkComp (isListening u) (transcript u) (reminders u) (aiResponse u) b (events u)
  | SetEvents l =>
      mkComp (isListening u) (transcript u) (reminders u) (aiResponse u) (isLoading u) l
  | RecognitionStart | RecognitionStop | ConsoleError _ _ => u
  end.

Definition apply_eff (e : SyncEff) (w : World) : World :=
  match e with
  | RecognitionStart => with_capturing true w
  | RecognitionStop => with_capturing false w
  | ConsoleError msg err => with_console (console w ++ [(msg, err)]) w
  | _ => with_ui (set_state e (ui w)) w
  end.

(** Runs a task up to its first [await] (the call is sent and the rest of
    the task waits for it) or to its end; a task that ends by throwing
    leaves an unhandled rejection. *)
Fixpoint run_task (o : Origin) (m : Async unit) (w : World) : World :=
  match m with
  | Ret _ => w
  | Throw e => with_unhandled (unhandled w ++ [e]) w
  | Eff e k => run_task o k (apply_eff e w)
  | Await c k =>
      with_issued (issued w ++ [c])
        (with_pending (pending w ++ [mkPending o c k]) w)
  end.

(** What a fulfilled call does to the stores, and what it answers. *)
Definition perform (c : Call) (w : World) : World * Resp c :=
  match c as c0 return World * Resp c0 with
  | GetReminders =>
      let l := getReminders B (reminderStore w) in (with_lastReminders l w, l)
  | AddReminder d =>
      (with_reminderStore (addReminder B d (reminderStore w)) w, tt)
  | UpdateReminder id data =>
      (with_reminderStore (updateReminder B id data (reminderStore w)) w, tt)
  | DeleteReminder id =>
      (with_reminderStore (deleteReminder B id (reminderStore w)) w, tt)
  | GetEvents =>
      let l := getEvents B (eventStore w) in (with_lastEvents l w, l)
  | AddEvent d =>
      (with_eventStore (addEvent B d (eventStore w)) w, tt)
  | UpdateEvent id data =>
      (with_eventStore (updateEvent B id data (eventStore w)) w, tt)
  | DeleteEvent id =>
      (with_eventStore (deleteEvent B id (eventStore w)) w, tt)
  | GetAIResponse t => (w, getAIResponse B t)
  end.

Fixpoint remove_nth {A : Type} (n : nat) (l : list A) : list A :=
  match l, n with
  | [], _ => []
  | _ :: rest, O => rest
  | x :: rest, S n' => x :: remove_nth n' rest
  end.

(** The [n]-th call in flight ends: fulfilled, it acts on its store and the
    waiting task resumes with the answer; rejected, it leaves the store as
    it is and the task resumes by throwing.  The answer is delivered the
    moment the server gives it; answers that travel and overtake one
    another are the matter of [serve] and [deliver] below. *)
Definition settle (n : nat) (out : Outcome) (w : World) : World :=
  match nth_error (pending w) n with
  | None => w
  | Some p =>
      let w1 := with_pending (remove_nth n (pending w)) w in
      match out with
      | Fulfil =>
          let (w2, v) := perform (awaited p) w1 in
          run_task (origin p) (resume p (Ok v)) w2
      | Reject e => run_task (origin p) (resume p (Err e)) w1
      end
  end.

(** What can happen to a mounted component. *)
Inductive UIEvent : Type :=
| ClickToggle                                  (* the Start/Stop button *)
| KeyDown (code : string) (target : Target)    (* keydown reaching window *)
| SpeechResult (t : string)                    (* recognition.onresult *)
| InputChange (v : string)                     (* typing in the Input *)
| ClickSubmit (now : UTCFields)                (* the Submit button *)
| SubmitReminderForm (id : Id B) (data : FormData B)
| ClickDeleteReminder (id : Id B)
| SubmitEventForm (id : Id B) (data : FormData B)
| ClickDeleteEvent (id : Id B)
| Settle (n : nat) (out : Outcome).

(** One turn of the event loop.  The Submit button carries
    [disabled={isLoading}]: while [isLoading] holds, a click on it is not
    delivered.  [App] renders no list of events. *)
Definition step (c : Component) (ev : UIEvent) (w : World) : World :=
  match ev with
  | ClickToggle => run_task FromUser (toggleListening (isListening (ui w))) w
  | KeyDown code _ =>
      run_task FromUser (handleKeyPress (isListening (ui w)) code) w
  | SpeechResult t => run_task FromUser (eff (SetTranscript t)) w
  | InputChange v => run_task FromUser (eff (SetTranscript v)) w
  | ClickSubmit now =>
      if isLoading (ui w) then w
      else run_task FromSubmit (handleSubmit c now (transcript (ui w))) w
  | SubmitReminderForm id data =>
      run_task FromUpdateReminder (handleUpdateReminder id data) w
  | ClickDeleteReminder id =>
      run_task FromDeleteReminder (handleDeleteReminder id) w
  | SubmitEventForm id data =>
      match c with
      | App => w
      | VoiceCalendarAssistant =>
          run_task FromUpdateEvent (handleUpdateEvent id data) w
      end
  | ClickDeleteEvent id =>
      match c with
      | App => w
      | VoiceCalendarAssistant =>
          run_task FromDeleteEvent (handleDeleteEvent id) w
      end
  | Settle n out => settle n out w
  end.

Definition run (c : Component) (evs : list UIEvent) (w : World) : World :=
  fold_left (fun w ev => step c ev w) evs w.

(** The [useState] initial values, nothing in flight. *)
Definition initial (rs : ReminderStore B) (es : EventStore B) : World :=
  mkWorld (mkComp false "" [] "" false []) false rs es [] [] [] [] None None.

(** The mount effect (47-67, 295-315) in a browser that provides the speech
    recognizer: the recognizer is set up and [loadReminders()] is started
    without being awaited. *)
Definition mounted (rs : ReminderStore B) (es : EventStore B) : World :=
  run_task FromMount loadReminders (initial rs es).

(** The mount effect in any environment.  With a [window], the recognizer
    is constructed first, and where the browser has no such constructor
    that [new] throws before [loadReminders()] is reached: the effect ends
    there, and the error is kept with the unhandled ones.  The page does not
    live on after that, so runs of events start from a mount with the
    recognizer. *)
Definition mountEffect (env : Browser) : Async unit :=
  match env with
  | NoWindow => loadReminders
  | WithoutSpeech => Throw "TypeError: not a constructor"
  | WithSpeech => loadReminders
  end.

Definition mount (env : Browser) (rs : ReminderStore B) (es : EventStore B)
  : World :=
  run_task FromMount (mountEffect env) (initial rs es).

(** *** Vocabulary of the properties *)

(** The extractor each component submits with. *)
Definition extract (c : Component) (now : UTCFields) (t : string)
  : Result Draft :=
  match c with
  | App => Ok (processTranscript now t)
  | VoiceCalendarAssistant => processNaturalLanguage N now t
  end.

(** The store-create call and the list reload of each component. *)
Definition create_call (c : Component) (d : Draft) : Call :=
  match c with
  | App => AddReminder d
  | VoiceCalendarAssistant => AddEvent d
  end.

Definition reload_call (c : Component) : Call :=
  match c with
  | App => GetReminders
  | VoiceCalendarAssistant => GetEvents
  end.

Definition is_create (c : Call) : bool :=
  match c with
  | AddReminder _ | AddEvent _ => true
  | _ => false
  end.

Definition is_query (c : Call) : bool :=
  match c with
  | GetAIResponse _ => true
  | _ => false
  end.

Definition cost (f : Call -> bool) (c : Call) : nat :=
  if f c then 1%nat else 0%nat.

Definition count (f : Call -> bool) (l : list Call) : nat :=
  List.length (filter f l).

Definition is_submit (o : Origin) : bool :=
  match o with
  | FromSubmit => true
  | _ => false
  end.

(** Submit pipelines in flight. *)
Definition inflight (l : list Pending) : nat :=
  List.length (filter (fun p => is_submit (origin p)) l).

(** Clicks on Submit that were delivered to [handleSubmit] along a run. *)
Fixpoint accepted (c : Component) (evs : list UIEvent) (w : World) : nat :=
  match evs with
  | [] => O
  | ev :: rest =>
      (match ev with
       | ClickSubmit _ => if isLoading (ui w) then 0 else 1
       | _ => 0
       end + accepted c rest (step c ev w))%nat
  end.

(** The list a cache shows when its last fulfilled fetch answered [o]. *)
Definition snapshot {A : Type} (o : option (list A)) : list A :=
  match o with
  | Some l => l
  | None => []
  end.

Definition sets_loading (e : SyncEff) : bool :=
  match e with
  | SetIsLoading _ => true
  | _ => false
  end.

Definition is_list_write (e : SyncEff) : bool :=
  match e with
  | SetReminders _ | SetEvents _ => true
  | _ => false
  end.

(** A task tail that neither awaits nor touches [isLoading]. *)
Fixpoint Quiet (m : Async unit) : Prop :=
  match m with
  | Ret _ | Throw _ => True
  | Eff e k => sets_loading e = false /\ Quiet k
  | Await _ _ => False
  end.

(** A task that leaves [isLoading] alone and sends neither a create nor an
    AI query. *)
Fixpoint Bystander (m : Async unit) : Prop :=
  match m with
  | Ret _ | Throw _ => True
  | Eff e k => sets_loading e = false /\ Bystander k
  | Await c k =>
      is_create c = false /\ is_query c = false /\
      forall r, Bystander (k r)
  end.

(** The rest of a submit: on every path it clears [isLoading] exactly once,
    after its last await, and sends at most [nc] creates and [nq] queries. *)
Fixpoint Pipeline (m : Async unit) (nc nq : nat) : Prop :=
  match m with
  | Ret _ | Throw _ => False
  | Eff e k =>
      match e with
      | SetIsLoading b => b = false /\ Quiet k
      | _ => Pipeline k nc nq
      end
  | Await c k =>
      (cost is_create c <= nc)%nat /\ (cost is_query c <= nq)%nat /\
      forall r, Pipeline (k r) (nc - cost is_create c) (nq - cost is_query c)
  end.

(** The setter a task must run first when call [c] settles with [r]. *)
Definition installs (c : Call) : Result (Resp c) -> option SyncEff :=
  match c as c0 return Result (Resp c0) -> option SyncEff with
  | GetReminders =>
      fun r => match r with Ok l => Some (SetReminders l) | Err _ => None end
  | GetEvents =>
      fun r => match r with Ok l => Some (SetEvents l) | Err _ => None end
  | _ => fun _ => None
  end.

(** A task that writes a cached list only with the answer of a fetch, as
    the first thing it does when the fetch is fulfilled. *)
Fixpoint Wholesale (m : Async unit) : Prop :=
  match m with
  | Ret _ | Throw _ => True
  | Eff e k => is_list_write e = false /\ Wholesale k
  | Await c k =>
      forall r,
        match installs c r with
        | Some e =>
            match k r with
            | Eff e' k' => e' = e /\ Wholesale k'
            | _ => False
            end
        | None => Wholesale (k r)
        end
  end.

Definition task_ok (nc nq : nat) (p : Pending) : Prop :=
  forall r,
    if is_submit (origin p) then Pipeline (resume p r) nc nq
    else Bystander (resume p r).

(** The loading flag counts the submits in flight, and the creates and
    queries sent plus those still to come stay within [acc]. *)
Definition LoadInv (w : World) (acc : nat) : Prop :=
  exists nc nq,
    Forall (task_ok nc nq) (pending w) /\
    inflight (pending w) = (if isLoading (ui w) then 1 else 0)%nat /\
    (count is_create (issued w) + (if isLoading (ui w) then nc else 0)
     <= acc)%nat /\
    (count is_query (issued w) + (if isLoading (ui w) then nq else 0)
     <= acc)%nat.

(** Each cache shows the answer of its last fulfilled fetch, and so it will
    after any call in flight settles. *)
Definition CacheInv (w : World) : Prop :=
  reminders (ui w) = snapshot (lastReminders w) /\
  events (ui w) = snapshot (lastEvents w) /\
  Forall (fun p => Wholesale (Await (awaited p) (resume p))) (pending w).

(** *** Vocabulary of the further properties *)

(** The edit and delete actions on the two lists. *)
Inductive Edit : Type :=
| EditReminder (id : Id B) (data : FormData B)
| RemoveReminder (id : Id B)
| EditEvent (id : Id B) (data : FormData B)
| RemoveEvent (id : Id B).

Definition edit_event (ed : Edit) : UIEvent :=
  match ed with
  | EditReminder id data => SubmitReminderForm id data
  | RemoveReminder id => ClickDeleteReminder id
  | EditEvent id data => SubmitEventForm id data
  | RemoveEvent id => ClickDeleteEvent id
  end.

Definition edit_call (ed : Edit) : Call :=
  match ed with
  | EditReminder id data => UpdateReminder id data
  | RemoveReminder id => DeleteReminder id
  | EditEvent id data => UpdateEvent id data
  | RemoveEvent id => DeleteEvent id
  end.

Definition on_reminders (ed : Edit) : bool :=
  match ed with
  | EditReminder _ _ | RemoveReminder _ => true
  | EditEvent _ _ | RemoveEvent _ => false
  end.

Definition edit_reload (ed : Edit) : Call :=
  if on_reminders ed then GetReminders else GetEvents.

(** [App] renders the reminders only. *)
Definition offered (c : Component) (ed : Edit) : bool :=
  match c with
  | App => on_reminders ed
  | VoiceCalendarAssistant => true
  end.

Definition is_reminder_write (c : Call) : bool :=
  match c with
  | AddReminder _ | UpdateReminder _ _ | DeleteReminder _ => true
  | _ => false
  end.

Definition is_reminder_fetch (c : Call) : bool :=
  match c with
  | GetReminders => true
  | _ => false
  end.

Definition on_event_store (c : Call) : bool :=
  match c with
  | GetEvents | AddEvent _ | UpdateEvent _ _ | DeleteEvent _ => true
  | _ => false
  end.

Definition is_add_reminder (c : Call) : bool :=
  match c with
  | AddReminder _ => true
  | _ => false
  end.

Definition leaves_listening (e : SyncEff) : bool :=
  match e with
  | SetIsListening _ | RecognitionStart | RecognitionStop => false
  | _ => true
  end.

Definition leaves_events (e : SyncEff) : bool :=
  match e with
  | SetEvents _ => false
  | _ => true
  end.

Definition is_event_write (c : Call) : bool :=
  match c with
  | AddEvent _ | UpdateEvent _ _ | DeleteEvent _ => true
  | _ => false
  end.

Definition is_event_fetch (c : Call) : bool :=
  match c with
  | GetEvents => true
  | _ => false
  end.

(** A task that goes on to a [fetch], as long as its calls are fulfilled,
    without a [write] before. *)
Fixpoint LeadsToReload (fetch write : Call -> bool) (m : Async unit) : Prop :=
  match m with
  | Ret _ | Throw _ => False
  | Eff _ k => LeadsToReload fetch write k
  | Await c k =>
      fetch c = true \/
      (write c = false /\ forall v, LeadsToReload fetch write (k (Ok v)))
  end.

(** A task in which every [write], once fulfilled, leads to a [fetch]. *)
Fixpoint Tidy (fetch write : Call -> bool) (m : Async unit) : Prop :=
  match m with
  | Ret _ | Throw _ => True
  | Eff _ k => Tidy fetch write k
  | Await c k =>
      (forall r, Tidy fetch write (k r)) /\
      (write c = true -> forall v, LeadsToReload fetch write (k (Ok v)))
  end.

(** *** Answers on their way

    A finer view of a call in flight.  The server takes a request and
    answers it ([serve]: a fulfilled call acts on its store then); the
    answer travels back on the [wire], as the rest of the handler with the
    answer filled in; the handler resumes when its answer is delivered
    ([deliver]).  Answers may be delivered in another order than they were
    given. *)

Record Net : Type := mkNet {
  client : World;
  wire : list (Origin * Async unit)
}.

Inductive NetEvent : Type :=
| Ui (ev : UIEvent)
| Serve (n : nat) (out : Outcome)        (* the [n]-th request is answered *)
| Deliver (n : nat).                     (* the [n]-th answer arrives *)

Definition serve (n : nat) (out : Outcome) (net : Net) : Net :=
  match nth_error (pending (client net)) n with
  | None => net
  | Some p =>
      let w1 := with_pending (remove_nth n (pending (client net)))
                             (client net) in
      match out with
      | Fulfil =>
          let (w2, v) := perform (awaited p) w1 in
          mkNet w2 (wire net ++ [(origin p, resume p (Ok v))])
      | Reject e => mkNet w1 (wire net ++ [(origin p, resume p (Err e))])
      end
  end.

Definition deliver (n : nat) (net : Net) : Net :=
  match nth_error (wire net) n with
  | None => net
  | Some (o, m) => mkNet (run_task o m (client net)) (remove_nth n (wire net))
  end.

(** A [Settle] event belongs to the coarser view and does nothing here. *)
Definition net_step (c : Component) (ev : NetEvent) (net : Net) : Net :=
  match ev with
  | Ui (Settle _ _) => net
  | Ui ev => mkNet (step c ev (client net)) (wire net)
  | Serve n out => serve n out net
  | Deliver n => deliver n net
  end.

Definition net_run (c : Component) (evs : list NetEvent) (net : Net) : Net :=
  fold_left (fun net ev => net_step c ev net) evs net.

Definition net_mounted (rs : ReminderStore B) (es : EventStore B) : Net :=
  mkNet (mounted rs es) [].

(** No call is rejected and the answers arrive in the order they were
    given. *)
Definition in_order (evs : list NetEvent) : bool :=
  forallb (fun ev => match ev with
                     | Serve _ (Reject _) => false
                     | Deliver (S _) => false
                     | _ => true
                     end) evs.

(** The list an answer puts into a cache as soon as it arrives. *)
Definition installsReminders (m : Async unit) : option (list (Reminder B)) :=
  match m with
  | Eff (SetReminders l) _ => Some l
  | _ => None
  end.

Definition installsEvents (m : Async unit)
  : option (list (CalendarEvent B)) :=
  match m with
  | Eff (SetEvents l) _ => Some l
  | _ => None
  end.

(** The last element of [l] on which [f] answers something. *)
Fixpoint last_some {A X : Type} (f : A -> option X) (l : list A) : option X :=
  match l with
  | [] => None
  | x :: rest =>
      match last_some f rest with
      | Some y => Some y
      | None => f x
      end
  end.

Definition or_else {X : Type} (o : option X) (d : X) : X :=
  match o with
  | Some x => x
  | None => d
  end.

(** An answer on the wire: one write to a cached list at most, first. *)
Definition WireOk (m : Async unit) : Prop :=
  match m with
  | Eff e k => if is_list_write e then Wholesale k else Wholesale m
  | _ => Wholesale m
  end.

(** The last answer given by each [list()] call is in the cache, or is the
    last such answer still on the wire. *)
Definition WireInv (net : Net) : Prop :=
  Forall (fun p => Wholesale (Await (awaited p) (resume p)))
         (pending (client net)) /\
  Forall (fun om => WireOk (snd om)) (wire net) /\
  snapshot (lastReminders (client net))
  = or_else (last_some (fun om => installsReminders (snd om)) (wire net))
            (reminders (ui (client net))) /\
  snapshot (lastEvents (client net))
  = or_else (last_some (fun om => installsEvents (snd om)) (wire net))
            (events (ui (client net))).

(** The last fetch is up to date ([Settled]), or a fetch is on its way. *)
Definition NetFresh (fetch write : Call -> bool) (Settled : World -> Prop)
    (net : Net) : Prop :=
  Forall (fun p => Tidy fetch write (Await (awaited p) (resume p)))
         (pending (client net)) /\
  Forall (fun om => Tidy fetch write (snd om)) (wire net) /\
  (Settled (client net) \/
   Exists (fun p => LeadsToReload fetch write (Await (awaited p) (resume p)))
          (pending (client net)) \/
   Exists (fun om => LeadsToReload fetch write (snd om)) (wire net)).

(** The events that make [VoiceCalendarAssistant] call the event store;
    [App] has none. *)
Definition touches_events (c : Component) (ev : UIEvent) : bool :=
  match c, ev with
  | VoiceCalendarAssistant, ClickSubmit _
  | VoiceCalendarAssistant, SubmitEventForm _ _
  | VoiceCalendarAssistant, ClickDeleteEvent _ => true
  | _, _ => false
  end.

(** The last answer of [getReminders] is what the store lists now. *)
Definition reminders_settled (w : World) : Prop :=
  lastReminders w = Some (getReminders B (reminderStore w)).

(** The last answer of [getEvents] is what the store lists now, or the
    events were never fetched and the store is still [es]. *)
Definition events_settled (es : EventStore B) (w : World) : Prop :=
  lastEvents w = Some (getEvents B (eventStore w)) \/
  (lastEvents w = None /\ eventStore w = es).

(** What an event that is not a [Settle] does: nothing, or start a task. *)
Definition Launches (c : Component) (P : Async unit -> Prop) : Prop :=
  forall ev w,
    (exists n out, ev = Settle n out) \/
    step c ev w = w \/
    exists o m, step c ev w = run_task o m w /\ P m.

(** A task all of whose effects are [safe] and all of whose calls are [ok]. *)
Fixpoint Within (safe : SyncEff -> bool) (ok : Call -> bool) (m : Async unit)
  : Prop :=
  match m with
  | Ret _ | Throw _ => True
  | Eff e k => safe e = true /\ Within safe ok k
  | Await c k => ok c = true /\ forall r, Within safe ok (k r)
  end.

(** [Q] holds, every call sent so far is [ok], and the tasks in flight will
    stay [Within] the two. *)
Definition KeptBy (Q : World -> Prop) (safe : SyncEff -> bool)
    (ok : Call -> bool) (w : World) : Prop :=
  Q w /\
  Forall (fun c => ok c = true) (issued w) /\
  Forall (fun p => Within safe ok (Await (awaited p) (resume p))) (pending w).

(** ** Properties of the string primitives *)

Lemma draft_eta (d : Draft) : mkDraft (date d) (time d) (text d) = d.
Proof. destruct d; reflexivity. Qed.

Lemma split_nonempty (sep : ascii) (s : string) : split sep s <> [].
Proof.
  induction s as [|c s IH]; simpl; [discriminate|].
  destruct (Ascii.eqb c sep); [discriminate|].
  destruct (split sep s); discriminate.
Qed.

Lemma has_char_app (c : ascii) (a b : string) :
  has_char c (a ++ b) = has_char c a || has_char c b.
Proof.
  induction a as [|x a IH]; simpl; [reflexivity|].
  rewrite IH, orb_assoc; reflexivity.
Qed.

Lemma length_append (a b : string) :
  String.length (a ++ b) = (String.length a + String.length b)%nat.
Proof. induction a as [|c a IH]; simpl; [reflexivity|rewrite IH; reflexivity]. Qed.

(** Splitting at the first separator. *)
Lemma split_at_first (sep : ascii) (a b : string) :
  has_char sep a = false ->
  split sep (a ++ String sep b) = a :: split sep b.
Proof.
  induction a as [|x a IH]; simpl; intros H.
  - rewrite Ascii.eqb_refl; reflexivity.
  - apply orb_false_elim in H as [Hx Ha].
    rewrite Hx, (IH Ha); reflexivity.
Qed.

Lemma indexOf_absent (x : string) (l : list string) :
  ~ In x l -> indexOf x l = -1.
Proof.
  induction l as [|w l IH]; simpl; intros H; [reflexivity|].
  destruct (String.eqb_spec w x) as [E|E]; [tauto|].
  rewrite IH by tauto; reflexivity.
Qed.

(** [indexOf] finds the first occurrence. *)
Lemma indexOf_first (x : string) (pre rest : list string) :
  ~ In x pre -> indexOf x (pre ++ x :: rest)%list = Z.of_nat (List.length pre).
Proof.
  induction pre as [|w pre IH]; simpl List.length; simpl indexOf; intros H.
  - rewrite String.eqb_refl; reflexivity.
  - simpl in H. destruct (String.eqb_spec w x) as [E|E]; [tauto|].
    rewrite IH by tauto.
    destruct (Z.eqb_spec (Z.of_nat (List.length pre)) (-1)); lia.
Qed.

Lemma at_index_next (pre : list string) (x y : string) (rest : list string) :
  at_index (pre ++ x :: y :: rest)%list (Z.of_nat (List.length pre) + 1) = str y.
Proof.
  unfold at_index.
  destruct (Z.ltb_spec (Z.of_nat (List.length pre) + 1) 0); [lia|].
  replace (Z.to_nat (Z.of_nat (List.length pre) + 1)) with (List.length pre + 1)%nat by lia.
  rewrite nth_error_app2 by lia.
  replace (List.length pre + 1 - List.length pre)%nat with 1%nat by lia.
  reflexivity.
Qed.

Lemma at_index_end (l : list string) :
  at_index l (Z.of_nat (List.length l)) = undefined.
Proof.
  unfold at_index.
  destruct (Z.ltb_spec (Z.of_nat (List.length l)) 0); [reflexivity|].
  rewrite Nat2Z.id.
  destruct (nth_error l (List.length l)) eqn:E; [|reflexivity].
  assert (H' : nth_error l (List.length l) <> None) by congruence.
  apply nth_error_Some in H'. lia.
Qed.

(** ** Properties of [toISOString] *)

Lemma digitChar_digit (d : Z) : 0 <= d < 10 -> isDigit (digitChar d) = true.
Proof.
  intros H.
  assert (E : d = 0 \/ d = 1 \/ d = 2 \/ d = 3 \/ d = 4 \/ d = 5 \/ d = 6 \/
              d = 7 \/ d = 8 \/ d = 9) by lia.
  repeat (destruct E as [E|E]; [subst; reflexivity|]); subst; reflexivity.
Qed.

Lemma digit_not_T (c : ascii) : isDigit c = true -> Ascii.eqb c "T" = false.
Proof.
  intros H. destruct (Ascii.eqb_spec c "T") as [E|E]; [|reflexivity].
  subst; discriminate.
Qed.

Lemma padded_no_T (w : nat) (n : Z) : has_char "T" (padded w n) = false.
Proof.
  revert n; induction w as [|w IH]; intros n; cbn [padded]; [reflexivity|].
  rewrite has_char_app, IH; cbn [has_char orb].
  rewrite digit_not_T; [reflexivity|].
  apply digitChar_digit, Z.mod_pos_bound; lia.
Qed.

Lemma isoDate_no_T (f : UTCFields) : has_char "T" (isoDate f) = false.
Proof.
  unfold isoDate, isoYear.
  destruct ((0 <=? utcFullYear f) && (utcFullYear f <=? 9999));
    [|destruct (utcFullYear f <? 0)];
    repeat (rewrite has_char_app || rewrite padded_no_T || simpl has_char);
    reflexivity.
Qed.

(** The date part of [toISOString] is what [split('T')[0]] returns. *)
Lemma split_T_isoString (f : UTCFields) :
  at_index (split "T" (isoString f)) 0 = str (isoDate f).
Proof.
  unfold isoString.
  change (isoDate f ++ "T" ++ isoTime f)
    with (isoDate f ++ String "T" (isoTime f)).
  rewrite split_at_first by apply isoDate_no_T.
  reflexivity.
Qed.

Lemma today_isoDate (now : UTCFields) : today now = str (isoDate now).
Proof. apply split_T_isoString. Qed.

Lemma padded_length (w : nat) (n : Z) : String.length (padded w n) = w.
Proof.
  revert n; induction w as [|w IH]; intros n; cbn [padded]; [reflexivity|].
  rewrite length_append, IH. cbn [String.length]. lia.
Qed.

(** For a year of four digits the date reads [YYYY-MM-DD]. *)
Lemma isoDate_four_digit_year (f : UTCFields) :
  0 <= utcFullYear f <= 9999 ->
  isoDate f = padded 4 (utcFullYear f) ++ "-" ++ padded 2 (utcMonth f)
              ++ "-" ++ padded 2 (utcDate f) /\
  String.length (isoDate f) = 10%nat.
Proof.
  intros [H0 H1]. unfold isoDate, isoYear.
  apply Z.leb_le in H0, H1. rewrite H0, H1. cbn [andb].
  split; [reflexivity|].
  rewrite !length_append, !padded_length. reflexivity.
Qed.

(** ** The keyword-anchored extractor *)

Lemma processTranscript_text (now : UTCFields) (s : string) :
  text (processTranscript now s) = s.
Proof. reflexivity. Qed.

(** C1 (as amended).  When the tokens of [s] (split on single spaces) read
    [... on D at T ...], no token before this "on" is "on" or "at", and [D]
    is not itself "at", [processTranscript] returns date [D], time [T] and
    the verbatim input as text. *)
Theorem processTranscript_first_on_at
    (now : UTCFields) (s : string) (pre post : list string) (D T : string) :
  split " " s = (pre ++ ["on"; D; "at"; T] ++ post)%list ->
  ~ In "on" pre -> ~ In "at" pre -> D <> "at" ->
  processTranscript now s = mkDraft (str D) (str T) s.
Proof.
  intros Hs Hon Hat HD.
  unfold processTranscript. rewrite Hs.
  assert (Ion : indexOf "on" (pre ++ ["on"; D; "at"; T] ++ post)%list
                = Z.of_nat (List.length pre))
    by (apply (indexOf_first "on" pre); assumption).
  assert (Iat : indexOf "at" (pre ++ ["on"; D; "at"; T] ++ post)%list
                = Z.of_nat (List.length (pre ++ ["on"; D])%list)).
  { change (pre ++ ["on"; D; "at"; T] ++ post)%list
      with (pre ++ ["on"; D] ++ "at" :: T :: post)%list.
    rewrite app_assoc. apply indexOf_first.
    intros Hin. apply in_app_or in Hin as [Hin|Hin]; [tauto|].
    simpl in Hin. destruct Hin as [E|[E|[]]]; [discriminate|congruence]. }
  cbv zeta. rewrite Ion, Iat.
  destruct (Z.eqb_spec (Z.of_nat (List.length pre)) (-1)); [lia|].
  destruct (Z.eqb_spec (Z.of_nat (List.length (pre ++ ["on"; D])%list)) (-1)); [lia|].
  cbn [negb]. f_equal.
  - apply (at_index_next pre "on" D).
  - change (pre ++ ["on"; D; "at"; T] ++ post)%list
      with (pre ++ ["on"; D] ++ "at" :: T :: post)%list.
    rewrite app_assoc. apply at_index_next.
Qed.

(** C2 (as amended).  When no token of [s] is "on" and none is "at",
    [processTranscript] returns the UTC day of the clock as [YYYY-MM-DD]
    (the date part of [toISOString]; [now] holds the UTC fields of the
    instant), the time "12:00" and the verbatim input as text. *)
Theorem processTranscript_defaults (now : UTCFields) (s : string) :
  ~ In "on" (split " " s) -> ~ In "at" (split " " s) ->
  processTranscript now s = mkDraft (str (isoDate now)) (str "12:00") s.
Proof.
  intros Hon Hat. unfold processTranscript.
  rewrite (indexOf_absent "on") by assumption.
  rewrite (indexOf_absent "at") by assumption.
  cbn [Z.eqb negb Pos.eqb Z.opp]. rewrite today_isoDate. reflexivity.
Qed.

(** A keyword that is the last token has no token after it. *)
Lemma processTranscript_keyword_last
    (now : UTCFields) (s : string) (pre : list string) :
  split " " s = (pre ++ ["on"])%list -> ~ In "on" pre ->
  date (processTranscript now s) = undefined.
Proof.
  intros Hs Hon. unfold processTranscript; cbn [date]. rewrite Hs.
  rewrite indexOf_first by assumption.
  destruct (Z.eqb_spec (Z.of_nat (List.length pre)) (-1)); [lia|]. cbn [negb].
  replace (Z.of_nat (List.length pre) + 1)
    with (Z.of_nat (List.length (pre ++ ["on"])%list))
    by (rewrite length_app; simpl List.length; lia).
  apply at_index_end.
Qed.

(** C3 (where the code departs from it).  On an utterance that ends with
    the keyword, [processTranscript] returns a draft whose date is
    [undefined], not a string. *)
Theorem processTranscript_date_undefined (now : UTCFields) :
  processTranscript now "remind me on"
  = mkDraft undefined (str "12:00") "remind me on".
Proof. reflexivity. Qed.

(** ** The time pattern *)

Lemma substring_prefix (m rest : string) :
  substring 0 (String.length m) (m ++ rest) = m.
Proof.
  induction m as [|c m IH]; simpl.
  - destruct rest; reflexivity.
  - rewrite IH; reflexivity.
Qed.

Lemma consumed_app (m rest : string) : consumed (m ++ rest) rest = m.
Proof.
  unfold consumed. rewrite length_append.
  replace (String.length m + String.length rest - String.length rest)%nat
    with (String.length m) by lia.
  apply substring_prefix.
Qed.

Lemma time_match_sound (s rest : string) :
  matchFrom timeRegex s Some = Some rest ->
  exists m, ClockShape m /\ s = m ++ rest.
Proof.
  unfold timeRegex. cbn.
  destruct s as [|a [|b [|c [|d [|e r]]]]]; 
  repeat match goal with
         | |- context [if ?b then _ else _] => destruct b eqn:?
         end; try discriminate.
  all: intros H; inversion H; subst; clear H.
  all: repeat match goal with
         | H : (_ =? ":")%char = true |- _ => apply Ascii.eqb_eq in H; subst
         end.
  all: try match goal with
         | H : isDigit ":" = true |- _ => discriminate H
         end.
  all: match goal with
       | |- exists m, _ /\ String ?h (String ":" (String ?x (String ?y _))) = _ =>
           exists (String h (String ":" (String x (String y ""))));
           split; [left; exists h, x, y; repeat split; assumption|reflexivity]
       | |- exists m, _ /\
              String ?h (String ?g (String ":" (String ?x (String ?y _)))) = _ =>
           exists (String h (String g (String ":" (String x (String y "")))));
           split; [right; exists h, g, x, y; repeat split; assumption|reflexivity]
       end.
Qed.

Lemma time_match_complete (m rest : string) :
  ClockShape m -> matchFrom timeRegex (m ++ rest) Some = Some rest.
Proof.
  intros [(h & m1 & m2 & Hh & H1 & H2 & ->)|(h1 & h2 & m1 & m2 & Hh1 & Hh2 & H1 & H2 & ->)];
    unfold timeRegex; cbn.
  - rewrite Hh, H1, H2. cbn. destruct (isDigit m2); reflexivity.
  - rewrite Hh1, Hh2, H1, H2. reflexivity.
Qed.

Lemma regexExec_eq (r : Regex) (s : string) :
  regexExec r s =
  match matchFrom r s Some with
  | Some rest => Some (consumed s rest)
  | None =>
      match s with
      | EmptyString => None
      | String _ s' => regexExec r s'
      end
  end.
Proof. destruct s; reflexivity. Qed.

Lemma clock_shape_unique (m m' post post' : string) :
  ClockShape m -> ClockShape m' -> m ++ post = m' ++ post' -> m = m'.
Proof.
  intros Hm Hm' E.
  pose proof (time_match_complete m post Hm) as M.
  pose proof (time_match_complete m' post' Hm') as M'.
  rewrite E, M' in M. injection M as ->.
  rewrite <- (consumed_app m post), E. apply consumed_app.
Qed.

Lemma append_inv_length (a a' b b' : string) :
  String.length a = String.length a' -> a ++ b = a' ++ b' ->
  a = a' /\ b = b'.
Proof.
  revert a'; induction a as [|c a IH]; intros [|c' a'] L E;
    simpl in *; try discriminate.
  - auto.
  - injection E as -> E. injection L as L.
    destruct (IH a' L E) as [-> ->]. auto.
Qed.

(** [regexExec] answers the match that starts first. *)
Lemma regexExec_first (s m : string) :
  regexExec timeRegex s = Some m -> FirstClock s m.
Proof.
  revert m; induction s as [|c s IH]; intros m; rewrite regexExec_eq.
  - discriminate.
  - destruct (matchFrom timeRegex (String c s) Some) as [rest|] eqn:E.
    + intros H; injection H as <-.
      destruct (time_match_sound _ _ E) as (m0 & Hm0 & Es).
      rewrite Es, consumed_app.
      exists "", rest. split; [reflexivity|]. split; [assumption|].
      intros; simpl; lia.
    + intros H. destruct (IH m H) as (pre & post & Es & Hm & Hmin).
      exists (String c pre), post. split; [simpl; rewrite <- Es; reflexivity|].
      split; [assumption|].
      intros [|c' pre'] m' post' Es' Hm'.
      * simpl in Es'. rewrite Es', (time_match_complete m' post' Hm') in E.
        discriminate.
      * simpl in Es'. injection Es' as _ Es'.
        specialize (Hmin pre' m' post' Es' Hm'). simpl; lia.
Qed.

Lemma regexExec_none (s : string) :
  regexExec timeRegex s = None -> NoClock s.
Proof.
  induction s as [|c s IH]; rewrite regexExec_eq.
  - intros _ [|c' pre] m post Es Hm; simpl in Es; [|discriminate].
    destruct Hm as [(? & ? & ? & _ & _ & _ & ->)
                   |(? & ? & ? & ? & _ & _ & _ & _ & ->)]; discriminate.
  - destruct (matchFrom timeRegex (String c s) Some) as [rest|] eqn:E;
      [discriminate|].
    intros H [|c' pre] m post Es Hm; simpl in Es.
    + rewrite Es, (time_match_complete m post Hm) in E. discriminate.
    + injection Es as _ Es. exact (IH H pre m post Es Hm).
Qed.

Lemma first_clock_unique (s m m' : string) :
  FirstClock s m -> FirstClock s m' -> m = m'.
Proof.
  intros (pre & post & Es & Hm & Hmin) (pre' & post' & Es' & Hm' & Hmin').
  assert (L : String.length pre = String.length pre').
  { apply Nat.le_antisymm; [eapply Hmin|eapply Hmin']; eassumption. }
  rewrite Es in Es'.
  destruct (append_inv_length _ _ _ _ L Es') as [_ E].
  exact (clock_shape_unique _ _ _ _ Hm Hm' E).
Qed.

Lemma first_clock_found (s m : string) :
  FirstClock s m -> regexExec timeRegex s = Some m.
Proof.
  intros H. destruct (regexExec timeRegex s) as [m0|] eqn:E.
  - f_equal. exact (first_clock_unique s m0 m (regexExec_first s m0 E) H).
  - destruct H as (pre & post & Es & Hm & _).
    exfalso. exact (regexExec_none s E pre m post Es Hm).
Qed.

Lemma no_clock_found (s : string) :
  NoClock s -> regexExec timeRegex s = None.
Proof.
  intros H. destruct (regexExec timeRegex s) as [m0|] eqn:E; [|reflexivity].
  destruct (regexExec_first s m0 E) as (pre & post & Es & Hm & _).
  exfalso. exact (H pre m0 post Es Hm).
Qed.

(** ** The pattern-anchored extractor *)

Lemma processNaturalLanguage_invalid (now : UTCFields) (s : string) :
  parse N s = Some InvalidDate ->
  processNaturalLanguage N now s = Err "RangeError: Invalid time value".
Proof. intros H. unfold processNaturalLanguage. rewrite H. reflexivity. Qed.

(** C8 (as amended).  For every text, whatever the recognizer: either one
    substring of the text of the form [H:MM] or [HH:MM] comes first or there
    is none; when the recognizer answers an Invalid Date,
    [processNaturalLanguage] raises the [RangeError] of [toISOString] and
    returns nothing; otherwise it returns a draft with the verbatim text
    whose time is that first substring, or "12:00" when there is none, and
    whose date is the UTC day of the recognized date when there is one, the
    UTC day of the clock otherwise. *)
Theorem processNaturalLanguage_time_date (now : UTCFields) (s : string) :
  ((exists m, FirstClock s m) \/ NoClock s) /\
  (parse N s = Some InvalidDate ->
   processNaturalLanguage N now s = Err "RangeError: Invalid time value") /\
  (parse N s <> Some InvalidDate ->
   exists d,
     processNaturalLanguage N now s = Ok d /\ text d = s /\
     (forall m, FirstClock s m -> time d = str m) /\
     (NoClock s -> time d = str "12:00") /\
     (forall f, parse N s = Some (ValidDate f) -> date d = str (isoDate f)) /\
     (parse N s = None -> date d = str (isoDate now))).
Proof.
  assert (Htime :
    let t := match regexExec timeRegex s with
             | Some timeMatch => timeMatch
             | None => "12:00"
             end in
    ((exists m, FirstClock s m) \/ NoClock s) /\
    (forall m, FirstClock s m -> str t = str m) /\
    (NoClock s -> str t = str "12:00")).
  { destruct (regexExec timeRegex s) as [m0|] eqn:E; cbv zeta.
    - split; [left; exists m0; apply regexExec_first; assumption|].
      split.
      + intros m Hm. apply first_clock_found in Hm. congruence.
      + intros Hno. apply no_clock_found in Hno. congruence.
    - split; [right; apply regexExec_none; assumption|].
      split; [|reflexivity].
      intros m Hm. apply first_clock_found in Hm. congruence. }
  cbv zeta in Htime. destruct Htime as (Hex & Hfirst & Hnone).
  split; [exact Hex|]. split; [apply processNaturalLanguage_invalid|].
  intros Hvalid. unfold processNaturalLanguage.
  destruct (parse N s) as [[|f]|] eqn:P; [congruence| |].
  - cbn [toISOString]. eexists. split; [reflexivity|]. cbn [text time date].
    repeat split; try assumption.
    + intros f' E; injection E as <-. apply split_T_isoString.
    + discriminate.
  - eexists. split; [reflexivity|]. cbn [text time date].
    repeat split; try assumption.
    + discriminate.
    + intros _. apply today_isoDate.
Qed.

(** ** The controller: single steps and single submits *)

Lemma nth_error_last {A : Type} (p : list A) (q : A) :
  nth_error (p ++ [q]) (List.length p) = Some q.
Proof. rewrite nth_error_app2, Nat.sub_diag by lia. reflexivity. Qed.

Lemma remove_nth_last {A : Type} (p : list A) (q : A) :
  remove_nth (List.length p) (p ++ [q]) = p.
Proof. induction p as [|x p IH]; simpl; [reflexivity|rewrite IH; reflexivity]. Qed.

Lemma settle_last (w : World) (p : list Pending) (q : Pending) (out : Outcome) :
  pending w = (p ++ [q])%list ->
  settle (List.length p) out w =
  match out with
  | Fulfil =>
      let (w2, v) := perform (awaited q) (with_pending p w) in
      run_task (origin q) (resume q (Ok v)) w2
  | Reject e => run_task (origin q) (resume q (Err e)) (with_pending p w)
  end.
Proof.
  intros H. unfold settle. rewrite H, nth_error_last, remove_nth_last.
  reflexivity.
Qed.


Ltac settle_next :=
  match goal with
  | |- context [settle _ ?o (with_issued ?i (with_pending (?p ++ [?q])%list ?w0))] =>
      rewrite (settle_last (with_issued i (with_pending (p ++ [q])%list w0))
                 p q o eq_refl)
  end.

Lemma click_submit_accepted (c : Component) (now : UTCFields) (w : World) :
  isLoading (ui w) = false ->
  step c (ClickSubmit now) w
  = run_task FromSubmit (handleSubmit c now (transcript (ui w))) w.
Proof. intros H. unfold step. rewrite H. reflexivity. Qed.


(** C7 (as amended).  A keydown of the space key toggles capture whatever
    element has the focus, a text input included: [isListening] is negated
    and the recognizer is started or stopped accordingly.  A keydown of
    any other key changes nothing. *)
Theorem space_key_toggles (c : Component) (w : World) (target : Target) :
  let w' := step c (KeyDown "Space" target) w in
  isListening (ui w') = negb (isListening (ui w)) /\
  capturing w' = negb (isListening (ui w)) /\
  (forall code, code <> "Space" -> step c (KeyDown code target) w = w).
Proof.
  cbn. split; [|split].
  - destruct (isListening (ui w)); reflexivity.
  - destruct (isListening (ui w)); reflexivity.
  - intros code H. unfold handleKeyPress.
    destruct (String.eqb_spec code "Space"); [contradiction|reflexivity].
Qed.

(** C5 (as amended).  For every accepted submit whose store-create call,
    AI query and list reload are all fulfilled: afterwards the transcript
    is empty, the AI response is the responder's reply, nothing is left in
    flight, and the cached list of the store that was written ([reminders]
    in [App], [events] in [VoiceCalendarAssistant]) is what a [list()] call
    fulfilled next would answer; the other cached list is as it was. *)
Theorem submit_success
    (c : Component) (w : World) (now : UTCFields) (d : Draft) :
  isLoading (ui w) = false ->
  extract c now (transcript (ui w)) = Ok d ->
  let n := List.length (pending w) in
  let w' :=
    run c [ClickSubmit now; Settle n Fulfil; Settle n Fulfil; Settle n Fulfil]
        w in
  transcript (ui w') = "" /\
  aiResponse (ui w') = getAIResponse B (transcript (ui w)) /\
  isLoading (ui w') = false /\
  pending w' = pending w /\
  issued w' = (issued w ++ [create_call c d;
                            GetAIResponse (transcript (ui w));
                            reload_call c])%list /\
  match c with
  | App =>
      reminderStore w' = addReminder B d (reminderStore w) /\
      reminders (ui w') = snd (perform GetReminders w') /\
      events (ui w') = events (ui w)
  | VoiceCalendarAssistant =>
      eventStore w' = addEvent B d (eventStore w) /\
      events (ui w') = snd (perform GetEvents w') /\
      reminders (ui w') = reminders (ui w)
  end.
Proof.
  intros Hload Hext n w'. subst w' n. unfold run. cbn [fold_left].
  rewrite click_submit_accepted by assumption.
  destruct c; cbn [handleSubmit extract create_call reload_call] in *.
  - injection Hext as <-. unfold handleSubmitApp.
    cbn -[processTranscript]. rewrite draft_eta.
    do 3 (settle_next; cbn -[processTranscript]).
    rewrite <- !app_assoc. repeat split.
  - unfold handleSubmitVoice. rewrite Hext. cbn. rewrite draft_eta.
    do 3 (settle_next; cbn).
    rewrite <- !app_assoc. repeat split.
Qed.

(** C6.  For every accepted submit whose store-create call is rejected:
    afterwards the transcript and both cached lists are as before the
    submit, the AI response is the fixed failure message, the only call
    sent was the create (no list reload), the stores are untouched, and the
    error was caught: it is logged, no rejection is left unhandled and the
    component accepts submits again. *)
Theorem submit_create_fails
    (c : Component) (w : World) (now : UTCFields) (d : Draft) (e : Error) :
  isLoading (ui w) = false ->
  extract c now (transcript (ui w)) = Ok d ->
  let n := List.length (pending w) in
  let w' := run c [ClickSubmit now; Settle n (Reject e)] w in
  transcript (ui w') = transcript (ui w) /\
  aiResponse (ui w') = failureMessage /\
  reminders (ui w') = reminders (ui w) /\
  events (ui w') = events (ui w) /\
  issued w' = (issued w ++ [create_call c d])%list /\
  pending w' = pending w /\
  reminderStore w' = reminderStore w /\
  eventStore w' = eventStore w /\
  console w' = (console w ++ [("Error processing request:", e)])%list /\
  unhandled w' = unhandled w /\
  isLoading (ui w') = false.
Proof.
  intros Hload Hext n w'. subst w' n. unfold run. cbn [fold_left].
  rewrite click_submit_accepted by assumption.
  destruct c; cbn [handleSubmit extract create_call] in *.
  - injection Hext as <-. unfold handleSubmitApp.
    cbn -[processTranscript]. rewrite draft_eta.
    settle_next. cbn -[processTranscript]. repeat split.
  - unfold handleSubmitVoice. rewrite Hext. cbn. rewrite draft_eta.
    settle_next. cbn. repeat split.
Qed.

(** C10.  For every accepted submit whose store-create call is fulfilled
    and whose AI query is rejected: the transcript and both cached lists
    are as before the submit, the AI response is the fixed failure message,
    the only calls sent were the create and the query (no list reload, no
    compensating write), and the store holds the result of the create.  So
    a cache that agreed with its store before the submit disagrees with it
    afterwards, whenever the create changed what [list()] answers. *)
Theorem submit_query_fails
    (c : Component) (w : World) (now : UTCFields) (d : Draft) (e : Error) :
  isLoading (ui w) = false ->
  extract c now (transcript (ui w)) = Ok d ->
  let n := List.length (pending w) in
  let w' := run c [ClickSubmit now; Settle n Fulfil; Settle n (Reject e)] w in
  transcript (ui w') = transcript (ui w) /\
  aiResponse (ui w') = failureMessage /\
  reminders (ui w') = reminders (ui w) /\
  events (ui w') = events (ui w) /\
  isLoading (ui w') = false /\
  pending w' = pending w /\
  issued w' = (issued w ++ [create_call c d;
                            GetAIResponse (transcript (ui w))])%list /\
  match c with
  | App =>
      reminderStore w' = addReminder B d (reminderStore w) /\
      (reminders (ui w) = getReminders B (reminderStore w) ->
       getReminders B (addReminder B d (reminderStore w))
         <> getReminders B (reminderStore w) ->
       reminders (ui w') <> snd (perform GetReminders w'))
  | VoiceCalendarAssistant =>
      eventStore w' = addEvent B d (eventStore w) /\
      (events (ui w) = getEvents B (eventStore w) ->
       getEvents B (addEvent B d (eventStore w))
         <> getEvents B (eventStore w) ->
       events (ui w') <> snd (perform GetEvents w'))
  end.
Proof.
  intros Hload Hext n w'. subst w' n. unfold run. cbn [fold_left].
  rewrite click_submit_accepted by assumption.
  destruct c; cbn [handleSubmit extract create_call] in *.
  - injection Hext as <-. unfold handleSubmitApp.
    cbn -[processTranscript]. rewrite draft_eta.
    do 2 (settle_next; cbn -[processTranscript]).
    rewrite <- !app_assoc. repeat split.
    intros Hsync Hchg E. apply Hchg. rewrite <- E. exact Hsync.
  - unfold handleSubmitVoice. rewrite Hext. cbn. rewrite draft_eta.
    do 2 (settle_next; cbn).
    rewrite <- !app_assoc. repeat split.
    intros Hsync Hchg E. apply Hchg. rewrite <- E. exact Hsync.
Qed.

(** An error raised by the extractor of [VoiceCalendarAssistant] is caught
    like the others, before any call is sent. *)
Lemma submit_extractor_raises (w : World) (now : UTCFields) (e : Error) :
  isLoading (ui w) = false ->
  processNaturalLanguage N now (transcript (ui w)) = Err e ->
  let w' := step VoiceCalendarAssistant (ClickSubmit now) w in
  transcript (ui w') = transcript (ui w) /\
  aiResponse (ui w') = failureMessage /\
  isLoading (ui w') = false /\
  issued w' = issued w /\
  pending w' = pending w /\
  unhandled w' = unhandled w.
Proof.
  intros Hload Hext w'. subst w'.
  rewrite click_submit_accepted by assumption.
  cbn [handleSubmit]. unfold handleSubmitVoice. rewrite Hext. cbn.
  repeat split.
Qed.

(** ** The cached lists are snapshots *)

Ltac task_cases :=
  repeat first
    [ progress cbn -[processTranscript]
    | match goal with
      | |- _ /\ _ => split
      | |- forall r : Result _, _ => intros [?|?]
      | |- True => exact I
      | |- _ = _ => reflexivity
      | |- (_ <= _)%nat => lia
      end ].

Lemma loadReminders_wholesale : Wholesale loadReminders.
Proof. unfold loadReminders. task_cases. Qed.

Lemma loadEvents_wholesale : Wholesale loadEvents.
Proof. unfold loadEvents. task_cases. Qed.

Lemma toggleListening_wholesale (b : bool) : Wholesale (toggleListening b).
Proof. destruct b; task_cases. Qed.

Lemma handleSubmit_wholesale (c : Component) (now : UTCFields) (t : string) :
  Wholesale (handleSubmit c now t).
Proof.
  destruct c; cbn [handleSubmit].
  - unfold handleSubmitApp. task_cases.
  - unfold handleSubmitVoice.
    destruct (processNaturalLanguage N now t); task_cases.
Qed.

Lemma apply_eff_lists (e : SyncEff) (w : World) :
  is_list_write e = false ->
  reminders (ui (apply_eff e w)) = reminders (ui w) /\
  events (ui (apply_eff e w)) = events (ui w).
Proof. destruct e; cbn; intros H; try discriminate; auto. Qed.

Lemma apply_eff_frame (e : SyncEff) (w : World) :
  pending (apply_eff e w) = pending w /\
  issued (apply_eff e w) = issued w /\
  lastReminders (apply_eff e w) = lastReminders w /\
  lastEvents (apply_eff e w) = lastEvents w /\
  reminderStore (apply_eff e w) = reminderStore w /\
  eventStore (apply_eff e w) = eventStore w.
Proof. destruct e; cbn; auto 10. Qed.

Lemma run_task_cache (o : Origin) (m : Async unit) :
  forall w, Wholesale m -> CacheInv w -> CacheInv (run_task o m w).
Proof.
  induction m as [a|e|e k IH|c k IH]; intros w Hm Hw; cbn [run_task].
  - assumption.
  - exact Hw.
  - destruct Hm as [He Hk]. apply IH; [assumption|].
    destruct Hw as (Hr & He' & Hp).
    destruct (apply_eff_lists e w He) as [E1 E2].
    destruct (apply_eff_frame e w) as (F1 & _ & F3 & F4 & _).
    unfold CacheInv. rewrite E1, E2, F1, F3, F4. auto.
  - destruct Hw as (Hr & He' & Hp).
    unfold CacheInv; cbn. repeat split; try assumption.
    apply Forall_app; split; [assumption|].
    constructor; [exact Hm|constructor].
Qed.

Lemma handleUpdateReminder_wholesale (id : Id B) (data : FormData B) :
  Wholesale (handleUpdateReminder id data).
Proof. unfold handleUpdateReminder. task_cases. Qed.

Lemma handleDeleteReminder_wholesale (id : Id B) :
  Wholesale (handleDeleteReminder id).
Proof. unfold handleDeleteReminder. task_cases. Qed.

Lemma handleUpdateEvent_wholesale (id : Id B) (data : FormData B) :
  Wholesale (handleUpdateEvent id data).
Proof. unfold handleUpdateEvent. task_cases. Qed.

Lemma handleDeleteEvent_wholesale (id : Id B) :
  Wholesale (handleDeleteEvent id).
Proof. unfold handleDeleteEvent. task_cases. Qed.

Lemma handleKeyPress_wholesale (b : bool) (code : string) :
  Wholesale (handleKeyPress b code).
Proof.
  unfold handleKeyPress. destruct (String.eqb code "Space");
    [apply toggleListening_wholesale|exact I].
Qed.

Lemma Forall_remove_nth {A : Type} (P : A -> Prop) (n : nat) (l : list A) :
  Forall P l -> Forall P (remove_nth n l).
Proof.
  revert n; induction l as [|x l IH]; intros n H; [destruct n; exact H|].
  inversion H as [|? ? Hx Hl]; subst.
  destruct n as [|n]; cbn; [assumption|constructor; auto].
Qed.

Lemma Forall_nth_error {A : Type} (P : A -> Prop) (n : nat) (l : list A) (x : A) :
  Forall P l -> nth_error l n = Some x -> P x.
Proof.
  intros H E. rewrite Forall_forall in H. apply H.
  eapply nth_error_In; eassumption.
Qed.

Lemma installs_rejected (c : Call) (e : Error) : installs c (Err e) = None.
Proof. destruct c; reflexivity. Qed.

Lemma settle_cache (n : nat) (out : Outcome) (w : World) :
  CacheInv w -> CacheInv (settle n out w).
Proof.
  intros Hw. unfold settle.
  destruct (nth_error (pending w) n) as [p|] eqn:E; [|assumption].
  destruct Hw as (Hr & He & Hp).
  pose proof (Forall_nth_error _ _ _ _ Hp E) as Hk.
  pose proof (Forall_remove_nth _ n _ Hp) as Hp'.
  assert (Hw1 : CacheInv (with_pending (remove_nth n (pending w)) w))
    by (repeat split; assumption).
  destruct p as [o c k]; cbn [awaited resume origin] in *.
  destruct out as [|e].
  - destruct c; cbn [perform];
      try (specialize (Hk (Ok tt)); cbn in Hk;
           apply run_task_cache; [exact Hk|];
           repeat split; assumption).
    + cbn [reminderStore with_pending]. cbv zeta.
      match goal with
      | |- context [run_task _ (k ?r) _] =>
          specialize (Hk r); cbn [installs] in Hk;
          destruct (k r) as [?|?|e' k'|? ?]; try contradiction
      end.
      destruct Hk as [-> Hk']. cbn [run_task].
      apply run_task_cache; [exact Hk'|].
      repeat split; cbn; assumption.
    + cbn [eventStore with_pending]. cbv zeta.
      match goal with
      | |- context [run_task _ (k ?r) _] =>
          specialize (Hk r); cbn [installs] in Hk;
          destruct (k r) as [?|?|e' k'|? ?]; try contradiction
      end.
      destruct Hk as [-> Hk']. cbn [run_task].
      apply run_task_cache; [exact Hk'|].
      repeat split; cbn; assumption.
    + specialize (Hk (Ok (getAIResponse B t))). cbn in Hk.
      apply run_task_cache; [exact Hk|assumption].
  - specialize (Hk (Err e)). cbn [Wholesale] in Hk.
    rewrite installs_rejected in Hk.
    apply run_task_cache; assumption.
Qed.

Lemma step_cache (c : Component) (ev : UIEvent) (w : World) :
  CacheInv w -> CacheInv (step c ev w).
Proof.
  intros Hw. destruct ev; cbn [step].
  - apply run_task_cache; [apply toggleListening_wholesale|assumption].
  - apply run_task_cache; [apply handleKeyPress_wholesale|assumption].
  - apply run_task_cache; [task_cases|assumption].
  - apply run_task_cache; [task_cases|assumption].
  - destruct (isLoading (ui w)); [assumption|].
    apply run_task_cache; [apply handleSubmit_wholesale|assumption].
  - apply run_task_cache; [apply handleUpdateReminder_wholesale|assumption].
  - apply run_task_cache; [apply handleDeleteReminder_wholesale|assumption].
  - destruct c; [assumption|].
    apply run_task_cache; [apply handleUpdateEvent_wholesale|assumption].
  - destruct c; [assumption|].
    apply run_task_cache; [apply handleDeleteEvent_wholesale|assumption].
  - apply settle_cache; assumption.
Qed.

Lemma mounted_cache (rs : ReminderStore B) (es : EventStore B) :
  CacheInv (mounted rs es).
Proof.
  apply run_task_cache; [apply loadReminders_wholesale|].
  repeat split; constructor.
Qed.

Lemma run_cache (c : Component) (evs : list UIEvent) :
  forall w, CacheInv w -> CacheInv (run c evs w).
Proof.
  induction evs as [|ev evs IH]; intros w Hw; [assumption|].
  apply IH, step_cache, Hw.
Qed.

(** A task never touches the stores or the record of the last fetch. *)
Lemma run_task_frame (o : Origin) (m : Async unit) :
  forall w,
    lastReminders (run_task o m w) = lastReminders w /\
    lastEvents (run_task o m w) = lastEvents w /\
    reminderStore (run_task o m w) = reminderStore w /\
    eventStore (run_task o m w) = eventStore w.
Proof.
  induction m as [a|e|e k IH|c k IH]; intros w; cbn [run_task]; auto.
  destruct (IH (apply_eff e w)) as (-> & -> & -> & ->).
  destruct (apply_eff_frame e w) as (_ & _ & -> & -> & -> & ->). auto.
Qed.

(** What one step can do to the record of the last fetch. *)
Lemma step_last_fetch (c : Component) (ev : UIEvent) (w : World) :
  (lastReminders (step c ev w) = lastReminders w \/
   lastReminders (step c ev w) = Some (getReminders B (reminderStore w))) /\
  (lastEvents (step c ev w) = lastEvents w \/
   lastEvents (step c ev w) = Some (getEvents B (eventStore w))).
Proof.
  destruct ev; cbn [step];
    try (destruct c); try (destruct (isLoading (ui w)));
    try (split; left; first [reflexivity | apply run_task_frame]).
  all: unfold settle;
    destruct (nth_error (pending w) n) as [[o k0 k]|]; [|auto];
    cbn [awaited resume origin];
    destruct out; [destruct k0; cbn [perform]|];
    match goal with
    | |- context [run_task ?o ?m ?w0] =>
        destruct (run_task_frame o m w0) as (-> & -> & _ & _)
    end; cbn; auto.
Qed.

(** C9.  In every state that a mounted component can reach, each cached
    list is the answer of the last fulfilled [list()] call of its store
    (the initial empty list while none was fulfilled), and one more event
    either leaves a cached list as it is or replaces it by the full
    [list()] answer of its store. *)
Theorem cached_lists_are_snapshots
    (c : Component) (rs : ReminderStore B) (es : EventStore B)
    (evs : list UIEvent) :
  let w := run c evs (mounted rs es) in
  reminders (ui w) = snapshot (lastReminders w) /\
  events (ui w) = snapshot (lastEvents w) /\
  forall ev,
    let w' := step c ev w in
    (reminders (ui w') = reminders (ui w) \/
     reminders (ui w') = getReminders B (reminderStore w)) /\
    (events (ui w') = events (ui w) \/
     events (ui w') = getEvents B (eventStore w)).
Proof.
  intros w.
  assert (Hw : CacheInv w) by apply run_cache, mounted_cache.
  destruct Hw as (Hr & He & Hp). split; [assumption|]. split; [assumption|].
  intros ev w'.
  destruct (step_cache c ev w (conj Hr (conj He Hp))) as (Hr' & He' & _).
  fold w' in Hr', He'.
  destruct (step_last_fetch c ev w) as [L1 L2]. fold w' in L1, L2.
  rewrite Hr', He', Hr, He.
  split; [destruct L1 as [->| ->]|destruct L2 as [->| ->]]; auto.
Qed.

(** ** One submit at a time *)

Lemma apply_eff_loading (e : SyncEff) (w : World) :
  sets_loading e = false ->
  isLoading (ui (apply_eff e w)) = isLoading (ui w).
Proof. destruct e; cbn; intros H; try discriminate; reflexivity. Qed.

Lemma quiet_run (o : Origin) (m : Async unit) :
  forall w, Quiet m ->
    pending (run_task o m w) = pending w /\
    issued (run_task o m w) = issued w /\
    isLoading (ui (run_task o m w)) = isLoading (ui w).
Proof.
  induction m as [a|e|e k IH|c k IH]; intros w Hm; cbn [run_task]; auto.
  - destruct Hm as [He Hk]. destruct (IH (apply_eff e w) Hk) as (-> & -> & ->).
    destruct (apply_eff_frame e w) as (-> & -> & _).
    rewrite apply_eff_loading by assumption. auto.
  - destruct Hm.
Qed.

Lemma bystander_run (o : Origin) (m : Async unit) :
  forall w, Bystander m ->
    isLoading (ui (run_task o m w)) = isLoading (ui w) /\
    ((pending (run_task o m w) = pending w /\
      issued (run_task o m w) = issued w) \/
     exists c k,
       pending (run_task o m w) = (pending w ++ [mkPending o c k])%list /\
       issued (run_task o m w) = (issued w ++ [c])%list /\
       is_create c = false /\ is_query c = false /\
       forall r, Bystander (k r)).
Proof.
  induction m as [a|e|e k IH|c k IH]; intros w Hm; cbn [run_task]; auto.
  - destruct Hm as [He Hk]. destruct (IH (apply_eff e w) Hk) as (-> & H).
    destruct (apply_eff_frame e w) as (Ep & Ei & _).
    rewrite Ep, Ei in H.
    rewrite apply_eff_loading by assumption. auto.
  - destruct Hm as (Hc & Hq & Hk). split; [reflexivity|].
    right. exists c, k. cbn. auto.
Qed.

Lemma pipeline_run (m : Async unit) :
  forall nc nq w, Pipeline m nc nq ->
    (pending (run_task FromSubmit m w) = pending w /\
     issued (run_task FromSubmit m w) = issued w /\
     isLoading (ui (run_task FromSubmit m w)) = false) \/
    exists c k,
      pending (run_task FromSubmit m w)
        = (pending w ++ [mkPending FromSubmit c k])%list /\
      issued (run_task FromSubmit m w) = (issued w ++ [c])%list /\
      isLoading (ui (run_task FromSubmit m w)) = isLoading (ui w) /\
      (cost is_create c <= nc)%nat /\ (cost is_query c <= nq)%nat /\
      forall r,
        Pipeline (k r) (nc - cost is_create c) (nq - cost is_query c).
Proof.
  induction m as [a|e|e k IH|c k IH]; intros nc nq w Hm; cbn [run_task].
  - destruct Hm.
  - destruct Hm.
  - assert (Hother : sets_loading e = false -> Pipeline k nc nq ->
              (pending (run_task FromSubmit k (apply_eff e w)) = pending w /\
               issued (run_task FromSubmit k (apply_eff e w)) = issued w /\
               isLoading (ui (run_task FromSubmit k (apply_eff e w))) = false) \/
              exists c k0,
                pending (run_task FromSubmit k (apply_eff e w))
                  = (pending w ++ [mkPending FromSubmit c k0])%list /\
                issued (run_task FromSubmit k (apply_eff e w))
                  = (issued w ++ [c])%list /\
                isLoading (ui (run_task FromSubmit k (apply_eff e w)))
                  = isLoading (ui w) /\
                (cost is_create c <= nc)%nat /\ (cost is_query c <= nq)%nat /\
                forall r,
                  Pipeline (k0 r) (nc - cost is_create c)
                                  (nq - cost is_query c)).
    { intros He Hk.
      destruct (apply_eff_frame e w) as (Ep & Ei & _).
      pose proof (apply_eff_loading e w He) as El.
      specialize (IH nc nq (apply_eff e w) Hk).
      rewrite Ep, Ei, El in IH. exact IH. }
    destruct e; cbn [Pipeline] in Hm;
      try (apply Hother; [reflexivity|exact Hm]).
    destruct Hm as [-> Hq]. left.
    destruct (quiet_run FromSubmit k (apply_eff (SetIsLoading false) w) Hq)
      as (-> & -> & ->).
    cbn. auto.
  - destruct Hm as (Hc & Hq & Hk). right. exists c, k. cbn. auto 10.
Qed.

Lemma inflight_app (l1 l2 : list Pending) :
  inflight (l1 ++ l2) = (inflight l1 + inflight l2)%nat.
Proof. unfold inflight. rewrite filter_app, length_app. reflexivity. Qed.

Lemma count_app (f : Call -> bool) (l1 l2 : list Call) :
  count f (l1 ++ l2) = (count f l1 + count f l2)%nat.
Proof. unfold count. rewrite filter_app, length_app. reflexivity. Qed.

Lemma count_one (f : Call -> bool) (c : Call) : count f [c] = cost f c.
Proof. unfold count, cost. cbn. destruct (f c); reflexivity. Qed.

Lemma inflight_remove_nth (n : nat) (l : list Pending) (p : Pending) :
  nth_error l n = Some p ->
  inflight l
  = (inflight (remove_nth n l) + (if is_submit (origin p) then 1 else 0))%nat.
Proof.
  revert n; induction l as [|x l IH]; intros [|n] E; cbn in E; try discriminate.
  - injection E as ->. cbn [remove_nth]. unfold inflight. cbn [filter].
    destruct (is_submit (origin p)); cbn [List.length]; lia.
  - cbn [remove_nth]. specialize (IH n E). unfold inflight in *. cbn [filter].
    destruct (is_submit (origin x)); cbn [List.length]; lia.
Qed.

(** Without a submit in flight the budgets do not matter. *)
Lemma task_ok_rebudget (a b a' b' : nat) (l : list Pending) :
  inflight l = O -> Forall (task_ok a b) l -> Forall (task_ok a' b') l.
Proof.
  induction l as [|x l IH]; intros Hn H; [constructor|].
  inversion H as [|? ? Hx Hl]; subst.
  unfold inflight in Hn. cbn [filter] in Hn.
  destruct (is_submit (origin x)) eqn:Ex; [discriminate|].
  constructor; [|apply IH; assumption].
  intros r. specialize (Hx r). rewrite Ex in *. exact Hx.
Qed.

Lemma toggleListening_bystander (b : bool) : Bystander (toggleListening b).
Proof. destruct b; task_cases. Qed.

Lemma handleKeyPress_bystander (b : bool) (code : string) :
  Bystander (handleKeyPress b code).
Proof.
  unfold handleKeyPress. destruct (String.eqb code "Space");
    [apply toggleListening_bystander|exact I].
Qed.

Lemma loadReminders_bystander : Bystander loadReminders.
Proof. unfold loadReminders. task_cases. Qed.

Lemma handleUpdateReminder_bystander (id : Id B) (data : FormData B) :
  Bystander (handleUpdateReminder id data).
Proof. unfold handleUpdateReminder. task_cases. Qed.

Lemma handleDeleteReminder_bystander (id : Id B) :
  Bystander (handleDeleteReminder id).
Proof. unfold handleDeleteReminder. task_cases. Qed.

Lemma handleUpdateEvent_bystander (id : Id B) (data : FormData B) :
  Bystander (handleUpdateEvent id data).
Proof. unfold handleUpdateEvent. task_cases. Qed.

Lemma handleDeleteEvent_bystander (id : Id B) :
  Bystander (handleDeleteEvent id).
Proof. unfold handleDeleteEvent. task_cases. Qed.

(** [handleSubmit] raises [isLoading] and goes on as a pipeline that sends
    at most one create and at most one query. *)
Lemma handleSubmit_pipeline (c : Component) (now : UTCFields) (t : string) :
  exists body,
    handleSubmit c now t = Eff (SetIsLoading true) body /\ Pipeline body 1 1.
Proof.
  destruct c; cbn [handleSubmit].
  - eexists. split; [reflexivity|]. task_cases.
  - unfold handleSubmitVoice. eexists. split; [reflexivity|].
    destruct (processNaturalLanguage N now t); task_cases.
Qed.

(** A task outside the submit keeps the invariant. *)
Lemma bystander_keeps (o : Origin) (m : Async unit) (w : World) (acc : nat) :
  is_submit o = false -> Bystander m ->
  LoadInv w acc -> LoadInv (run_task o m w) acc.
Proof.
  intros Ho Hm (nc & nq & Hp & Hn & Hc & Hq).
  destruct (bystander_run o m w Hm) as (El & [(Ep & Ei)|(c & k & Ep & Ei & Hcc & Hcq & Hk)]);
    exists nc, nq; rewrite El, Ep, Ei.
  - auto.
  - rewrite inflight_app, !count_app, !count_one. unfold cost.
    rewrite Hcc, Hcq. unfold inflight at 2. cbn [filter origin]. rewrite Ho.
    cbn [List.length]. rewrite !Nat.add_0_r.
    repeat split; try assumption.
    apply Forall_app; split; [assumption|].
    constructor; [|constructor].
    intros r. cbn [origin resume]. rewrite Ho. apply Hk.
Qed.

(** The rest of a submit keeps the invariant when it is the only one. *)
Lemma pipeline_keeps
    (m : Async unit) (w : World) (acc nc nq nc0 nq0 : nat) :
  Pipeline m nc nq ->
  Forall (task_ok nc0 nq0) (pending w) -> inflight (pending w) = O ->
  isLoading (ui w) = true ->
  (count is_create (issued w) + nc <= acc)%nat ->
  (count is_query (issued w) + nq <= acc)%nat ->
  LoadInv (run_task FromSubmit m w) acc.
Proof.
  intros Hm Hp Hn Hl Hc Hq.
  destruct (pipeline_run m nc nq w Hm)
    as [(Ep & Ei & El)|(c & k & Ep & Ei & El & Hcc & Hcq & Hk)].
  - exists nc0, nq0. rewrite Ep, Ei, El. repeat split; try assumption; lia.
  - exists (nc - cost is_create c)%nat, (nq - cost is_query c)%nat.
    rewrite Ep, Ei, El, Hl, inflight_app, !count_app, !count_one, Hn.
    repeat split; try reflexivity; try lia.
    apply Forall_app; split.
    + eapply task_ok_rebudget; eassumption.
    + constructor; [|constructor]. intros r. cbn. apply Hk.
Qed.

Lemma perform_frame (c : Call) (w : World) :
  ui (fst (perform c w)) = ui w /\
  pending (fst (perform c w)) = pending w /\
  issued (fst (perform c w)) = issued w.
Proof. destruct c; cbn; auto. Qed.

Lemma settle_keeps (n : nat) (out : Outcome) (w : World) (acc : nat) :
  LoadInv w acc -> LoadInv (settle n out w) acc.
Proof.
  intros Hw. unfold settle.
  destruct (nth_error (pending w) n) as [p|] eqn:E; [|assumption].
  destruct Hw as (nc & nq & Hp & Hn & Hc & Hq).
  pose proof (Forall_nth_error _ _ _ _ Hp E) as Hk.
  pose proof (Forall_remove_nth _ n _ Hp) as Hp'.
  pose proof (inflight_remove_nth n _ p E) as Hcount.
  set (w1 := with_pending (remove_nth n (pending w)) w).
  assert (Hgo : forall r w2,
             ui w2 = ui w -> pending w2 = remove_nth n (pending w) ->
             issued w2 = issued w ->
             LoadInv (run_task (origin p) (resume p r) w2) acc).
  { intros r w2 E1 E2 E3. specialize (Hk r).
    destruct (is_submit (origin p)) eqn:Eo.
    - destruct (origin p); try discriminate.
      destruct (isLoading (ui w)) eqn:El; [|lia].
      eapply pipeline_keeps; try eassumption.
      + rewrite E2. eassumption.
      + rewrite E2. lia.
      + rewrite E1. assumption.
      + rewrite E3. assumption.
      + rewrite E3. assumption.
    - apply bystander_keeps; [assumption|assumption|].
      exists nc, nq. rewrite E1, E2, E3.
      repeat split; try assumption. rewrite <- Hn. lia. }
  destruct out as [|e].
  - destruct (perform (awaited p) w1) as [w2 v] eqn:Ef.
    destruct (perform_frame (awaited p) w1) as (F1 & F2 & F3).
    rewrite Ef in F1, F2, F3. cbn [fst] in F1, F2, F3.
    apply Hgo; assumption.
  - apply Hgo; reflexivity.
Qed.

Lemma step_keeps (c : Component) (ev : UIEvent) (w : World) (acc : nat) :
  LoadInv w acc -> LoadInv (step c ev w) (acc + accepted c [ev] w).
Proof.
  intros Hw.
  destruct ev; cbn [step accepted]; rewrite ?Nat.add_0_r.
  - apply bystander_keeps; [reflexivity|apply toggleListening_bystander|assumption].
  - apply bystander_keeps; [reflexivity|apply handleKeyPress_bystander|assumption].
  - apply bystander_keeps; [reflexivity|task_cases|assumption].
  - apply bystander_keeps; [reflexivity|task_cases|assumption].
  - destruct (isLoading (ui w)) eqn:El; rewrite ?Nat.add_0_r; [assumption|].
    destruct (handleSubmit_pipeline c now (transcript (ui w)))
      as (body & -> & Hbody).
    cbn [run_task].
    destruct Hw as (nc & nq & Hp & Hn & Hc & Hq). rewrite El in *.
    eapply (pipeline_keeps body _ _ 1 1); try eassumption;
      unfold count in *; cbn; lia.
  - apply bystander_keeps;
      [reflexivity|apply handleUpdateReminder_bystander|assumption].
  - apply bystander_keeps;
      [reflexivity|apply handleDeleteReminder_bystander|assumption].
  - destruct c; [assumption|].
    apply bystander_keeps;
      [reflexivity|apply handleUpdateEvent_bystander|assumption].
  - destruct c; [assumption|].
    apply bystander_keeps;
      [reflexivity|apply handleDeleteEvent_bystander|assumption].
  - apply settle_keeps; assumption.
Qed.

Lemma run_keeps (c : Component) (evs : list UIEvent) :
  forall w acc, LoadInv w acc -> LoadInv (run c evs w) (acc + accepted c evs w).
Proof.
  induction evs as [|ev evs IH]; intros w acc Hw.
  - cbn. rewrite Nat.add_0_r. assumption.
  - change (run c (ev :: evs) w) with (run c evs (step c ev w)).
    pose proof (step_keeps c ev w acc Hw) as Hs.
    specialize (IH _ _ Hs).
    cbn [accepted] in *. rewrite Nat.add_0_r in IH.
    rewrite Nat.add_assoc. exact IH.
Qed.

Lemma mounted_keeps (rs : ReminderStore B) (es : EventStore B) :
  LoadInv (mounted rs es) 0.
Proof.
  apply bystander_keeps; [reflexivity|apply loadReminders_bystander|].
  exists O, O. cbn. repeat split; constructor.
Qed.

(** C4.  While a submit is in flight ([isLoading] holds) a click on Submit
    changes nothing.  Hence, in every state a mounted component can reach,
    a submit pipeline is in flight exactly when [isLoading] holds and never
    more than one is, and the store-create calls and the AI queries sent
    so far are each at most as many as the submits that were accepted. *)
Theorem submit_reentry_guard (c : Component) :
  (forall w now, isLoading (ui w) = true -> step c (ClickSubmit now) w = w) /\
  (forall rs es evs,
      let w := run c evs (mounted rs es) in
      (inflight (pending w) <= 1)%nat /\
      inflight (pending w) = (if isLoading (ui w) then 1 else 0)%nat /\
      (count is_create (issued w) <= accepted c evs (mounted rs es))%nat /\
      (count is_query (issued w) <= accepted c evs (mounted rs es))%nat).
Proof.
  split.
  - intros w now H. cbn [step]. rewrite H. reflexivity.
  - intros rs es evs w.
    destruct (run_keeps c evs _ _ (mounted_keeps rs es))
      as (nc & nq & _ & Hn & Hc & Hq).
    fold w in Hn, Hc, Hq. cbn [Nat.add] in Hc, Hq.
    repeat split; try assumption; try lia.
    rewrite Hn. destruct (isLoading (ui w)); lia.
Qed.

(** ** More on the extractors *)

Lemma first_occurrence (x : string) (l : list string) :
  In x l -> exists pre rest, l = (pre ++ x :: rest)%list /\ ~ In x pre.
Proof.
  induction l as [|w l IH]; intros H; [destruct H|].
  destruct (string_dec w x) as [->|Hne].
  - exists [], l. split; [reflexivity|]. intros [].
  - destruct H as [E|H]; [contradiction|].
    destruct (IH H) as (pre & rest & -> & Hpre).
    exists (w :: pre), rest. split; [reflexivity|].
    intros [E|Hin]; [contradiction|]. exact (Hpre Hin).
Qed.

(** What [words[words.indexOf(x) + 1]], guarded by [indexOf(x) !== -1],
    comes to. *)
Lemma keyword_lookup (x : string) (words : list string) (dflt : JSVal) :
  let v := if negb (indexOf x words =? -1)
           then at_index words (indexOf x words + 1) else dflt in
  (~ In x words /\ v = dflt) \/
  (exists pre y rest,
      words = (pre ++ x :: y :: rest)%list /\ ~ In x pre /\ v = str y) \/
  (exists pre, words = (pre ++ [x])%list /\ ~ In x pre /\ v = undefined).
Proof.
  intros v. subst v.
  destruct (in_dec string_dec x words) as [Hin|Hout].
  - right. destruct (first_occurrence x words Hin) as (pre & rest & -> & Hpre).
    rewrite indexOf_first by assumption.
    destruct (Z.eqb_spec (Z.of_nat (List.length pre)) (-1)); [lia|].
    cbn [negb]. destruct rest as [|y rest].
    + right. exists pre. split; [reflexivity|]. split; [assumption|].
      replace (Z.of_nat (List.length pre) + 1)
        with (Z.of_nat (List.length (pre ++ [x])%list))
        by (rewrite length_app; simpl List.length; lia).
      apply at_index_end.
    + left. exists pre, y, rest. split; [reflexivity|]. split; [assumption|].
      apply at_index_next.
  - left. split; [assumption|].
    rewrite indexOf_absent by assumption. reflexivity.
Qed.

(** X1.  The date of [processTranscript] is the clock's day when no token
    is "on", the token after the first "on" when there is one, and
    [undefined] exactly when the first "on" is the last token; likewise
    the time with "at" and "12:00". *)
Theorem processTranscript_field_cases (now : UTCFields) (s : string) :
  let words := split " " s in
  let d := processTranscript now s in
  ((~ In "on" words /\ date d = str (isoDate now)) \/
   (exists pre D rest,
       words = (pre ++ "on" :: D :: rest)%list /\ ~ In "on" pre /\
       date d = str D) \/
   (exists pre,
       words = (pre ++ ["on"])%list /\ ~ In "on" pre /\ date d = undefined))
  /\
  ((~ In "at" words /\ time d = str "12:00") \/
   (exists pre T rest,
       words = (pre ++ "at" :: T :: rest)%list /\ ~ In "at" pre /\
       time d = str T) \/
   (exists pre,
       words = (pre ++ ["at"])%list /\ ~ In "at" pre /\ time d = undefined)).
Proof.
  intros words d. subst words d. unfold processTranscript. cbn [date time].
  rewrite <- today_isoDate. split; apply keyword_lookup.
Qed.

Lemma split_no_sep (sep : ascii) (w : string) :
  has_char sep w = false -> split sep w = [w].
Proof.
  induction w as [|c w IH]; intros H; [reflexivity|].
  cbn in H. apply orb_false_elim in H as [Hc Hw].
  cbn. rewrite Hc, (IH Hw). reflexivity.
Qed.

(** Splitting what was joined gives the words back. *)
Lemma split_join (sep : ascii) (ws : list string) :
  ws <> [] -> Forall (fun w => has_char sep w = false) ws ->
  split sep (join sep ws) = ws.
Proof.
  induction ws as [|w rest IH]; intros Hne H; [contradiction|].
  inversion H as [|? ? Hw Hrest]; subst.
  destruct rest as [|w' rest'].
  - apply split_no_sep; assumption.
  - change (join sep (w :: w' :: rest'))
      with (w ++ String sep (join sep (w' :: rest'))).
    rewrite split_at_first by assumption.
    rewrite IH; [reflexivity|discriminate|assumption].
Qed.

(** X2.  An utterance put together, with single spaces, from words without
    spaces that read [... on D at T ...], where no word before this "on"
    is "on" or "at" and [D] is not "at", is extracted by
    [processTranscript] to date [D], time [T] and itself as text. *)
Theorem processTranscript_utterance
    (now : UTCFields) (pre post : list string) (D T : string) :
  Forall (fun w => has_char " " w = false) (pre ++ [D; T] ++ post)%list ->
  ~ In "on" pre -> ~ In "at" pre -> D <> "at" ->
  let s := join " " (pre ++ ["on"; D; "at"; T] ++ post)%list in
  processTranscript now s = mkDraft (str D) (str T) s.
Proof.
  intros Hsp Hon Hat HD s.
  assert (Hs : split " " s = (pre ++ ["on"; D; "at"; T] ++ post)%list).
  { apply split_join; [destruct pre; discriminate|].
    apply Forall_app in Hsp as [Hpre Hrest].
    inversion Hrest as [|? ? HD' Hrest']; subst.
    inversion Hrest' as [|? ? HT' Hpost]; subst.
    apply Forall_app; split; [assumption|].
    repeat (constructor; [first [reflexivity|assumption]|]). assumption. }
  unfold processTranscript. rewrite Hs. clear Hs Hsp. cbv zeta.
  assert (Ion : indexOf "on" (pre ++ ["on"; D; "at"; T] ++ post)%list
                = Z.of_nat (List.length pre))
    by (apply (indexOf_first "on" pre); assumption).
  assert (Eat : (pre ++ ["on"; D; "at"; T] ++ post)%list
                = ((pre ++ ["on"; D]) ++ "at" :: T :: post)%list)
    by (rewrite <- app_assoc; reflexivity).
  assert (Iat : indexOf "at" (pre ++ ["on"; D; "at"; T] ++ post)%list
                = Z.of_nat (List.length (pre ++ ["on"; D])%list)).
  { rewrite Eat. apply indexOf_first.
    intros Hin. apply in_app_or in Hin as [Hin|Hin]; [tauto|].
    simpl in Hin. destruct Hin as [E|[E|[]]]; [discriminate|congruence]. }
  rewrite Ion, Iat.
  destruct (Z.eqb_spec (Z.of_nat (List.length pre)) (-1)); [lia|].
  destruct (Z.eqb_spec (Z.of_nat (List.length (pre ++ ["on"; D])%list)) (-1));
    [lia|].
  cbn [negb]. f_equal.
  - apply (at_index_next pre "on" D).
  - rewrite Eat. apply at_index_next.
Qed.

(** X3.  On a text without the token "at" that holds a time of the form
    [H:MM] or [HH:MM], the two extractors part: [processTranscript] falls
    back to "12:00" while [processNaturalLanguage] returns the first such
    time. *)
Theorem extractors_part_on_time (now : UTCFields) (s m : string) :
  ~ In "at" (split " " s) -> FirstClock s m ->
  parse N s <> Some InvalidDate ->
  time (processTranscript now s) = str "12:00" /\
  exists d, processNaturalLanguage N now s = Ok d /\ time d = str m.
Proof.
  intros Hat Hm Hvalid. split.
  - unfold processTranscript. cbn [time].
    rewrite (indexOf_absent "at") by assumption. reflexivity.
  - unfold processNaturalLanguage.
    rewrite (first_clock_found s m Hm).
    destruct (parse N s) as [[|f]|]; [congruence| |];
      cbn [toISOString]; eexists; split; reflexivity.
Qed.

(** ** Properties kept by all tasks of a kind *)

Section WithinBounds.

Variable safe : SyncEff -> bool.
Variable ok : Call -> bool.
Variable Q : World -> Prop.

Hypothesis Q_eff : forall e w, safe e = true -> Q w -> Q (apply_eff e w).
Hypothesis Q_perform : forall c w, ok c = true -> Q w -> Q (fst (perform c w)).
Hypothesis Q_frame : forall w w',
    ui w' = ui w -> capturing w' = capturing w ->
    reminderStore w' = reminderStore w -> eventStore w' = eventStore w ->
    Q w -> Q w'.

Lemma run_task_within (o : Origin) (m : Async unit) :
  forall w, Within safe ok m -> KeptBy Q safe ok w ->
            KeptBy Q safe ok (run_task o m w).
Proof.
  induction m as [a|e|e k IH|c k IH]; intros w Hm (HQ & Hi & Hp);
    cbn [run_task].
  - repeat split; assumption.
  - repeat split; try assumption. eapply Q_frame; [..|exact HQ]; reflexivity.
  - destruct Hm as [He Hk]. apply IH; [assumption|].
    destruct (apply_eff_frame e w) as (Ep & Ei & _).
    unfold KeptBy. rewrite Ep, Ei. auto.
  - destruct Hm as [Hc Hk]. repeat split; cbn.
    + eapply Q_frame; [..|exact HQ]; reflexivity.
    + apply Forall_app; split; [assumption|]. constructor; [assumption|constructor].
    + apply Forall_app; split; [assumption|].
      constructor; [|constructor]. cbn. auto.
Qed.

Lemma settle_within (n : nat) (out : Outcome) (w : World) :
  KeptBy Q safe ok w -> KeptBy Q safe ok (settle n out w).
Proof.
  intros (HQ & Hi & Hp). unfold settle.
  destruct (nth_error (pending w) n) as [p|] eqn:E;
    [|repeat split; assumption].
  pose proof (Forall_nth_error _ _ _ _ Hp E) as [Hc Hk].
  pose proof (Forall_remove_nth _ n _ Hp) as Hp'.
  assert (H1 : KeptBy Q safe ok (with_pending (remove_nth n (pending w)) w)).
  { repeat split; try assumption.
    eapply Q_frame; [..|exact HQ]; reflexivity. }
  destruct out as [|e].
  - destruct (perform (awaited p) (with_pending (remove_nth n (pending w)) w))
      as [w2 v] eqn:Ef.
    apply run_task_within; [apply Hk|].
    destruct H1 as (HQ1 & Hi1 & Hp1).
    pose proof (Q_perform _ _ Hc HQ1) as HQ2.
    destruct (perform_frame (awaited p)
                (with_pending (remove_nth n (pending w)) w)) as (_ & F2 & F3).
    rewrite Ef in HQ2, F2, F3. cbn [fst] in HQ2, F2, F3.
    unfold KeptBy. rewrite F2, F3. auto.
  - apply run_task_within; [apply Hk|exact H1].
Qed.

Lemma run_within (c : Component) (evs : list UIEvent) :
  (forall ev w, KeptBy Q safe ok w -> KeptBy Q safe ok (step c ev w)) ->
  forall w, KeptBy Q safe ok w -> KeptBy Q safe ok (run c evs w).
Proof.
  intros Hstep. induction evs as [|ev evs IH]; intros w Hw; [assumption|].
  apply IH, Hstep, Hw.
Qed.

End WithinBounds.

Ltac handler_within :=
  unfold handleUpdateReminder, handleDeleteReminder, handleUpdateEvent,
    handleDeleteEvent, loadReminders, loadEvents, handleSubmitApp,
    handleSubmitVoice, onSubmitError, handleKeyPress, toggleListening;
  repeat match goal with
         | |- context [processNaturalLanguage ?n ?t ?x] =>
             destruct (processNaturalLanguage n t x)
         | |- context [String.eqb ?a ?b] => destruct (String.eqb a b)
         | |- context [if isListening ?u then _ else _] =>
             destruct (isListening u)
         end;
  task_cases.

Lemma perform_capturing (c : Call) (w : World) :
  capturing (fst (perform c w)) = capturing w.
Proof. destruct c; reflexivity. Qed.

Lemma step_in_sync (c : Component) (ev : UIEvent) (w : World) :
  KeptBy (fun w => capturing w = isListening (ui w))
         leaves_listening (fun _ => true) w ->
  KeptBy (fun w => capturing w = isListening (ui w))
         leaves_listening (fun _ => true) (step c ev w).
Proof.
  intros Hw.
  assert (Htoggle :
    KeptBy (fun w => capturing w = isListening (ui w))
           leaves_listening (fun _ => true)
           (run_task FromUser (toggleListening (isListening (ui w))) w)).
  { destruct Hw as (HQ & Hi & Hp). unfold toggleListening.
    destruct (isListening (ui w)); cbn; repeat split; assumption. }
  assert (Heff : forall e w0, leaves_listening e = true ->
                   capturing w0 = isListening (ui w0) ->
                   capturing (apply_eff e w0) = isListening (ui (apply_eff e w0)))
    by (intros e w0 He H0; destruct e; cbn in *; try discriminate; assumption).
  assert (Hperf : forall c0 w0, (fun _ : Call => true) c0 = true ->
                    capturing w0 = isListening (ui w0) ->
                    capturing (fst (perform c0 w0))
                    = isListening (ui (fst (perform c0 w0)))).
  { intros c0 w0 _ H0. rewrite perform_capturing.
    destruct (perform_frame c0 w0) as (-> & _). assumption. }
  assert (Hframe : forall w0 w', ui w' = ui w0 -> capturing w' = capturing w0 ->
                     reminderStore w' = reminderStore w0 ->
                     eventStore w' = eventStore w0 ->
                     capturing w0 = isListening (ui w0) ->
                     capturing w' = isListening (ui w'))
    by (intros w0 w' -> -> _ _ H0; exact H0).
  destruct ev; cbn [step].
  - exact Htoggle.
  - unfold handleKeyPress. destruct (String.eqb code "Space");
      [exact Htoggle|exact Hw].
  - apply (run_task_within _ _ _ Heff Hframe); [handler_within|assumption].
  - apply (run_task_within _ _ _ Heff Hframe); [handler_within|assumption].
  - destruct (isLoading (ui w)); [assumption|].
    apply (run_task_within _ _ _ Heff Hframe); [|assumption].
    destruct c; cbn [handleSubmit]; handler_within.
  - apply (run_task_within _ _ _ Heff Hframe); [handler_within|assumption].
  - apply (run_task_within _ _ _ Heff Hframe); [handler_within|assumption].
  - destruct c; [assumption|].
    apply (run_task_within _ _ _ Heff Hframe); [handler_within|assumption].
  - destruct c; [assumption|].
    apply (run_task_within _ _ _ Heff Hframe); [handler_within|assumption].
  - apply (settle_within _ _ _ Heff Hperf Hframe); assumption.
Qed.

(** X5.  In every state a mounted component can reach, the recognizer
    captures exactly when [isListening] holds: [start] is only ever called
    on a stopped recognizer and [stop] on a started one. *)
Theorem recognizer_in_sync
    (c : Component) (rs : ReminderStore B) (es : EventStore B)
    (evs : list UIEvent) :
  let w := run c evs (mounted rs es) in
  capturing w = isListening (ui w).
Proof.
  intros w.
  apply (run_within leaves_listening (fun _ => true)
           (fun w => capturing w = isListening (ui w)) c evs
           (step_in_sync c)).
  unfold mounted, loadReminders. cbn. repeat split; repeat constructor.
  intros [?|?]; task_cases.
Qed.

Lemma step_app_no_events (es : EventStore B) (ev : UIEvent) (w : World) :
  KeptBy (fun w => events (ui w) = [] /\ eventStore w = es)
         leaves_events (fun c => negb (on_event_store c)) w ->
  KeptBy (fun w => events (ui w) = [] /\ eventStore w = es)
         leaves_events (fun c => negb (on_event_store c)) (step App ev w).
Proof.
  intros Hw.
  assert (Heff : forall e w0, leaves_events e = true ->
                   events (ui w0) = [] /\ eventStore w0 = es ->
                   events (ui (apply_eff e w0)) = [] /\
                   eventStore (apply_eff e w0) = es)
    by (intros e w0 He H0; destruct e; cbn in *; try discriminate; assumption).
  assert (Hperf : forall c0 w0, negb (on_event_store c0) = true ->
                    events (ui w0) = [] /\ eventStore w0 = es ->
                    events (ui (fst (perform c0 w0))) = [] /\
                    eventStore (fst (perform c0 w0)) = es)
    by (intros c0 w0 Hc H0; destruct c0; cbn in *; try discriminate; assumption).
  assert (Hframe : forall w0 w', ui w' = ui w0 -> capturing w' = capturing w0 ->
                     reminderStore w' = reminderStore w0 ->
                     eventStore w' = eventStore w0 ->
                     events (ui w0) = [] /\ eventStore w0 = es ->
                     events (ui w') = [] /\ eventStore w' = es)
    by (intros w0 w' -> _ _ -> H0; exact H0).
  destruct ev; cbn [step]; try assumption;
    try (apply (settle_within _ _ _ Heff Hperf Hframe); assumption);
    try (destruct (isLoading (ui w)); [assumption|]);
    (apply (run_task_within _ _ _ Heff Hframe); [|assumption]);
    cbn [handleSubmit]; handler_within.
Qed.

(** X11.  [App] never touches the events: in every state it can reach the
    cached list of events is empty, the event store is as it was at mount
    and no call to the event store was sent. *)
Theorem app_leaves_events_alone
    (rs : ReminderStore B) (es : EventStore B) (evs : list UIEvent) :
  let w := run App evs (mounted rs es) in
  events (ui w) = [] /\ eventStore w = es /\
  Forall (fun c => on_event_store c = false) (issued w).
Proof.
  intros w.
  destruct (run_within leaves_events (fun c => negb (on_event_store c))
              (fun w => events (ui w) = [] /\ eventStore w = es) App evs
              (step_app_no_events es) (mounted rs es))
    as ((H1 & H2) & Hi & _).
  - unfold mounted, loadReminders. cbn. repeat split; repeat constructor.
    intros [?|?]; task_cases.
  - fold w in H1, H2, Hi. repeat split; try assumption.
    eapply Forall_impl; [|exact Hi]. intros c0 H. cbn in H.
    destruct (on_event_store c0); [discriminate|reflexivity].
Qed.

Lemma step_voice_no_add (ev : UIEvent) (w : World) :
  KeptBy (fun _ => True) (fun _ => true) (fun c => negb (is_add_reminder c)) w ->
  KeptBy (fun _ => True) (fun _ => true) (fun c => negb (is_add_reminder c))
         (step VoiceCalendarAssistant ev w).
Proof.
  intros Hw.
  assert (Heff : forall (e : SyncEff) (w0 : World),
             (fun _ : SyncEff => true) e = true -> True -> True) by auto.
  assert (Hperf : forall (c0 : Call) (w0 : World),
             negb (is_add_reminder c0) = true -> True -> True) by auto.
  assert (Hframe : forall w0 w' : World, ui w' = ui w0 ->
             capturing w' = capturing w0 ->
             reminderStore w' = reminderStore w0 ->
             eventStore w' = eventStore w0 -> True -> True) by auto.
  destruct ev; cbn [step];
    try (apply (settle_within _ _ (fun _ => True) Heff Hperf Hframe);
         assumption);
    try (destruct (isLoading (ui w)); [assumption|]);
    (apply (run_task_within _ _ (fun _ => True) Heff Hframe); [|assumption]);
    cbn [handleSubmit]; handler_within.
Qed.

(** X12.  [VoiceCalendarAssistant] never sends [addReminder]: whatever
    happens, its submits go to the event store only. *)
Theorem voice_never_adds_reminder
    (rs : ReminderStore B) (es : EventStore B) (evs : list UIEvent) :
  let w := run VoiceCalendarAssistant evs (mounted rs es) in
  Forall (fun c => is_add_reminder c = false) (issued w).
Proof.
  intros w.
  destruct (run_within (fun _ => true) (fun c => negb (is_add_reminder c))
              (fun _ => True) VoiceCalendarAssistant evs
              step_voice_no_add (mounted rs es))
    as (_ & Hi & _).
  - unfold mounted, loadReminders. cbn. repeat split; repeat constructor.
    intros [?|?]; task_cases.
  - fold w in Hi. eapply Forall_impl; [|exact Hi]. intros c0 H. cbn in H.
    destruct (is_add_reminder c0); [discriminate|reflexivity].
Qed.

(** ** Single runs of the other handlers *)

Lemma settle_idle (w : World) (n : nat) (out : Outcome) :
  nth_error (pending w) n = None -> settle n out w = w.
Proof. intros H. unfold settle. rewrite H. reflexivity. Qed.

(** Rewrites the innermost [settle] of the goal, [p] being the calls that
    were in flight before the run. *)
Ltac settle_inner p :=
  match goal with
  | |- context [settle ?n ?o ?w0] =>
      lazymatch w0 with
      | context [settle _ _ _] => fail
      | _ =>
          first
            [ rewrite (settle_last w0 p _ o eq_refl)
            | rewrite (settle_idle w0 n o)
                by (cbn; apply nth_error_None; apply Nat.le_refl) ]
      end
  end.

(** X4.  A click on the Start/Stop button negates [isListening] and starts
    or stops the recognizer to match; a second click brings [isListening]
    back, and brings back the whole state when the recognizer was in step
    with [isListening]. *)
Theorem toggle_twice (c : Component) (w : World) :
  let w1 := step c ClickToggle w in
  let w2 := step c ClickToggle w1 in
  (isListening (ui w1) = negb (isListening (ui w)) /\
   capturing w1 = negb (isListening (ui w))) /\
  (isListening (ui w2) = isListening (ui w) /\
   capturing w2 = isListening (ui w)) /\
  (capturing w = isListening (ui w) -> w2 = w).
Proof.
  destruct w as [[l t r a ld ev] cap rs es p i co un lr le].
  cbn. destruct l; cbn; repeat split; intros ->; reflexivity.
Qed.

(** X6.  An edit or a delete that the component offers, when the write
    and the reload that follows are both fulfilled, sends exactly these two
    calls, applies the write to its store, leaves the cached list of that
    store equal to what [list()] answers afterwards, and changes nothing
    else of the component. *)
Theorem edit_then_reload (c : Component) (ed : Edit) (w : World) :
  offered c ed = true ->
  let n := List.length (pending w) in
  let w' := run c [edit_event ed; Settle n Fulfil; Settle n Fulfil] w in
  issued w' = (issued w ++ [edit_call ed; edit_reload ed])%list /\
  pending w' = pending w /\
  unhandled w' = unhandled w /\
  reminderStore w' = reminderStore (fst (perform (edit_call ed) w)) /\
  eventStore w' = eventStore (fst (perform (edit_call ed) w)) /\
  (if on_reminders ed
   then reminders (ui w') = snd (perform GetReminders w') /\
        events (ui w') = events (ui w)
   else events (ui w') = snd (perform GetEvents w') /\
        reminders (ui w') = reminders (ui w)) /\
  transcript (ui w') = transcript (ui w) /\
  aiResponse (ui w') = aiResponse (ui w) /\
  isLoading (ui w') = isLoading (ui w) /\
  isListening (ui w') = isListening (ui w).
Proof.
  intros Hoff n w'. subst w' n. unfold run. cbn [fold_left].
  destruct c, ed; try discriminate Hoff; cbn [edit_event step];
    unfold handleUpdateReminder, handleDeleteReminder, handleUpdateEvent,
      handleDeleteEvent; cbn;
    do 2 (settle_inner (pending w); cbn);
    rewrite <- !app_assoc; repeat split.
Qed.

(** X7.  The edit and delete handlers catch nothing.  When the write is
    rejected, no reload is sent, stores and component state stay exactly as
    they were and the rejection is left unhandled; when the write is
    fulfilled and the reload rejected, the store has the write, the
    component state (the cached list included) is as before and the
    rejection is again left unhandled. *)
Theorem edit_failures_unhandled
    (c : Component) (ed : Edit) (w : World) (e : Error) :
  offered c ed = true ->
  let n := List.length (pending w) in
  (let w' := run c [edit_event ed; Settle n (Reject e)] w in
   issued w' = (issued w ++ [edit_call ed])%list /\
   pending w' = pending w /\
   ui w' = ui w /\
   reminderStore w' = reminderStore w /\ eventStore w' = eventStore w /\
   console w' = console w /\
   unhandled w' = (unhandled w ++ [e])%list) /\
  (let w' := run c [edit_event ed; Settle n Fulfil; Settle n (Reject e)] w in
   issued w' = (issued w ++ [edit_call ed; edit_reload ed])%list /\
   pending w' = pending w /\
   ui w' = ui w /\
   reminderStore w' = reminderStore (fst (perform (edit_call ed) w)) /\
   eventStore w' = eventStore (fst (perform (edit_call ed) w)) /\
   console w' = console w /\
   unhandled w' = (unhandled w ++ [e])%list).
Proof.
  intros Hoff n. subst n. unfold run. cbn [fold_left].
  destruct c, ed; try discriminate Hoff; cbn [edit_event step];
    unfold handleUpdateReminder, handleDeleteReminder, handleUpdateEvent,
      handleDeleteEvent; cbn;
    (split;
     [ settle_inner (pending w); cbn; repeat split
     | do 2 (settle_inner (pending w); cbn);
       rewrite <- !app_assoc; repeat split ]).
Qed.

(** X9.  An accepted submit always comes to an end, whatever the
    outcomes of its calls and whether or not the extractor raises:
    [isLoading] is back to false, nothing of it is left in flight, no
    rejection is left unhandled, and either the transcript is cleared and
    the reply shown, or the transcript is kept and the failure message
    shown. *)
Theorem submit_always_ends
    (c : Component) (w : World) (now : UTCFields) (o1 o2 o3 : Outcome) :
  isLoading (ui w) = false ->
  let n := List.length (pending w) in
  let w' := run c [ClickSubmit now; Settle n o1; Settle n o2; Settle n o3] w in
  isLoading (ui w') = false /\
  pending w' = pending w /\
  unhandled w' = unhandled w /\
  ((transcript (ui w') = "" /\
    aiResponse (ui w') = getAIResponse B (transcript (ui w))) \/
   (transcript (ui w') = transcript (ui w) /\
    aiResponse (ui w') = failureMessage)).
Proof.
  intros Hload n w'. subst w' n. unfold run. cbn [fold_left].
  rewrite click_submit_accepted by assumption.
  destruct c; cbn [handleSubmit];
    [unfold handleSubmitApp
    |unfold handleSubmitVoice;
     destruct (processNaturalLanguage N now (transcript (ui w)))];
    cbn -[processTranscript];
    destruct o1, o2, o3;
    do 3 (settle_inner (pending w); cbn -[processTranscript]);
    repeat split; auto.
Qed.

(** X10.  A submit works on the transcript as it was at the click.  Text
    typed while the calls are in flight does not reach the store or the
    responder; it is wiped when the submit succeeds and kept when the
    create call is rejected. *)
Theorem typing_during_submit
    (c : Component) (w : World) (now : UTCFields) (d : Draft) (v : string) :
  isLoading (ui w) = false ->
  extract c now (transcript (ui w)) = Ok d ->
  let n := List.length (pending w) in
  (let w' :=
     run c [ClickSubmit now; InputChange v;
            Settle n Fulfil; Settle n Fulfil; Settle n Fulfil] w in
   transcript (ui w') = "" /\
   aiResponse (ui w') = getAIResponse B (transcript (ui w)) /\
   issued w' = (issued w ++ [create_call c d;
                             GetAIResponse (transcript (ui w));
                             reload_call c])%list) /\
  (forall e,
      let w' := run c [ClickSubmit now; InputChange v; Settle n (Reject e)] w in
      transcript (ui w') = v /\ aiResponse (ui w') = failureMessage /\
      issued w' = (issued w ++ [create_call c d])%list).
Proof.
  intros Hload Hext n. subst n. unfold run. cbn [fold_left].
  rewrite click_submit_accepted by assumption.
  destruct c; cbn [handleSubmit extract create_call reload_call] in *.
  - injection Hext as <-. unfold handleSubmitApp.
    cbn -[processTranscript]. rewrite draft_eta. split; [|intros e].
    + do 3 (settle_inner (pending w); cbn -[processTranscript]).
      rewrite <- !app_assoc. repeat split.
    + settle_inner (pending w); cbn -[processTranscript]. repeat split.
  - unfold handleSubmitVoice. rewrite Hext. cbn. rewrite draft_eta.
    split; [|intros e].
    + do 3 (settle_inner (pending w); cbn).
      rewrite <- !app_assoc. repeat split.
    + settle_inner (pending w); cbn. repeat split.
Qed.

(** ** The caches catch up *)

Ltac tidy_cases :=
  unfold handleUpdateReminder, handleDeleteReminder, handleUpdateEvent,
    handleDeleteEvent, loadReminders, loadEvents, handleSubmitApp,
    handleSubmitVoice, onSubmitError, handleKeyPress, toggleListening;
  repeat match goal with
         | |- context [processNaturalLanguage ?n ?t ?x] =>
             destruct (processNaturalLanguage n t x)
         | |- context [String.eqb ?a ?b] => destruct (String.eqb a b)
         | |- context [if isListening ?u then _ else _] =>
             destruct (isListening u)
         | |- context [if ?b then eff _ else eff _] => destruct b
         end;
  repeat first
    [ progress cbn -[processTranscript]
    | match goal with
      | |- _ /\ _ => split
      | |- True => exact I
      | |- false = true -> _ => let H := fresh in intros H; discriminate H
      | |- true = true -> _ => intros _
      | |- forall r : Result _, _ => intros [?|?]
      | |- forall v, _ => intros ?
      | |- _ = _ => reflexivity
      | |- _ \/ _ => first [left; reflexivity | right]
      end ].

Lemma run_task_grows (o : Origin) (m : Async unit) :
  forall w, exists l, pending (run_task o m w) = (pending w ++ l)%list.
Proof.
  induction m as [a|e|e k IH|c k IH]; intros w; cbn [run_task].
  - exists []. rewrite app_nil_r. reflexivity.
  - exists []. rewrite app_nil_r. reflexivity.
  - destruct (IH (apply_eff e w)) as (l & ->).
    destruct (apply_eff_frame e w) as (-> & _). exists l. reflexivity.
  - eexists. reflexivity.
Qed.

Lemma Exists_remove_nth {A : Type} (P : A -> Prop) (n : nat) (l : list A)
    (x : A) :
  nth_error l n = Some x -> Exists P l -> P x \/ Exists P (remove_nth n l).
Proof.
  revert n; induction l as [|y l IH]; intros [|n] E H; cbn in E;
    try discriminate.
  - injection E as ->. cbn. inversion H; subst; auto.
  - cbn [remove_nth]. inversion H as [? ? Hy|? ? Hl]; subst.
    + right. constructor. exact Hy.
    + destruct (IH n E Hl) as [Hx|Hr]; [left; exact Hx|].
      right. apply Exists_cons_tl. exact Hr.
Qed.

(** Serving a request and delivering its answer at once is the coarser
    view's [settle]. *)
Lemma settle_serve_deliver (n : nat) (out : Outcome) (net : Net) :
  wire net = [] ->
  deliver 0 (serve n out net) = mkNet (settle n out (client net)) [].
Proof.
  intros Hw. unfold serve, settle. destruct net as [w l]; cbn in *. subst l.
  destruct (nth_error (pending w) n) as [p|]; [|reflexivity].
  destruct out as [|e]; [|reflexivity].
  destruct (perform (awaited p) (with_pending (remove_nth n (pending w)) w));
    reflexivity.
Qed.

Section CatchUp.

Variable fetch write : Call -> bool.
Variable Settled : World -> Prop.
Variable c : Component.

Hypothesis Settled_frame : forall w w',
    lastReminders w' = lastReminders w -> lastEvents w' = lastEvents w ->
    reminderStore w' = reminderStore w -> eventStore w' = eventStore w ->
    Settled w -> Settled w'.
Hypothesis Settled_fetch : forall c0 w,
    fetch c0 = true -> Settled (fst (perform c0 w)).
Hypothesis Settled_other : forall c0 w,
    fetch c0 = false -> write c0 = false ->
    Settled w -> Settled (fst (perform c0 w)).
Hypothesis handlers_tidy : Launches c (Tidy fetch write).

Lemma run_task_tidy (o : Origin) (m : Async unit) :
  forall w, Tidy fetch write m ->
    Forall (fun p => Tidy fetch write (Await (awaited p) (resume p)))
           (pending w) ->
    Forall (fun p => Tidy fetch write (Await (awaited p) (resume p)))
           (pending (run_task o m w)).
Proof.
  induction m as [a|e|e k IH|c0 k IH]; intros w Hm Hp; cbn [run_task];
    try assumption.
  - apply IH; [exact Hm|].
    destruct (apply_eff_frame e w) as (-> & _). assumption.
  - cbn. apply Forall_app; split; [assumption|].
    constructor; [exact Hm|constructor].
Qed.

Lemma run_task_leads (o : Origin) (m : Async unit) :
  forall w, LeadsToReload fetch write m ->
    Exists (fun p => LeadsToReload fetch write (Await (awaited p) (resume p)))
           (pending (run_task o m w)).
Proof.
  induction m as [a|e|e k IH|c0 k IH]; intros w Hm; cbn [run_task].
  - destruct Hm.
  - destruct Hm.
  - apply IH. exact Hm.
  - cbn. apply Exists_app. right. constructor. exact Hm.
Qed.

Lemma run_task_settled (o : Origin) (m : Async unit) (w : World) :
  Settled w -> Settled (run_task o m w).
Proof.
  intros H. destruct (run_task_frame o m w) as (E1 & E2 & E3 & E4).
  exact (Settled_frame _ _ E1 E2 E3 E4 H).
Qed.

Lemma run_task_waiting (o : Origin) (m : Async unit) (w : World) :
  Exists (fun p => LeadsToReload fetch write (Await (awaited p) (resume p)))
         (pending w) ->
  Exists (fun p => LeadsToReload fetch write (Await (awaited p) (resume p)))
         (pending (run_task o m w)).
Proof.
  intros H. destruct (run_task_grows o m w) as (l & ->).
  apply Exists_app. left. exact H.
Qed.

(** A task started on the client keeps [NetFresh]. *)
Lemma task_fresh (o : Origin) (m : Async unit) (net : Net) :
  Tidy fetch write m ->
  NetFresh fetch write Settled net ->
  NetFresh fetch write Settled (mkNet (run_task o m (client net)) (wire net)).
Proof.
  intros Ht (Hp & Hw & Hf). unfold NetFresh. cbn [client wire].
  split; [apply run_task_tidy; assumption|]. split; [assumption|].
  destruct Hf as [Hf|[Hf|Hf]].
  - left. apply run_task_settled, Hf.
  - right. left. apply run_task_waiting, Hf.
  - right. right. exact Hf.
Qed.

Lemma serve_fresh (n : nat) (net : Net) :
  NetFresh fetch write Settled net ->
  NetFresh fetch write Settled (serve n Fulfil net).
Proof.
  intros (Hp & Hw & Hf). unfold serve.
  destruct (nth_error (pending (client net)) n) as [p|] eqn:E;
    [|repeat split; assumption].
  pose proof (Forall_nth_error _ _ _ _ Hp E) as [Hk Hwrite].
  pose proof (Forall_remove_nth _ n _ Hp) as Hp'.
  destruct p as [o c0 k]; cbn [awaited resume origin] in *.
  set (w1 := with_pending (remove_nth n (pending (client net))) (client net)).
  destruct (perform c0 w1) as [w2 v] eqn:Ef.
  destruct (perform_frame c0 w1) as (_ & F2 & _).
  rewrite Ef in F2. cbn [fst] in F2.
  unfold NetFresh. cbn [client wire]. split; [rewrite F2; exact Hp'|].
  split; [apply Forall_app; split; [exact Hw|];
          constructor; [apply Hk|constructor]|].
  destruct (fetch c0) eqn:Hfetch.
  - left. pose proof (Settled_fetch c0 w1 Hfetch) as H.
    rewrite Ef in H. exact H.
  - destruct (write c0) eqn:Hwr.
    + right. right. apply Exists_app. right. constructor.
      cbn [snd]. apply Hwrite. reflexivity.
    + destruct Hf as [Hf|[Hf|Hf]].
      * left.
        assert (H1 : Settled w1)
          by (eapply Settled_frame; [..|exact Hf]; reflexivity).
        pose proof (Settled_other c0 w1 Hfetch Hwr H1) as H.
        rewrite Ef in H. exact H.
      * destruct (Exists_remove_nth _ n _ _ E Hf) as [Hq|Hr].
        -- cbn [awaited resume LeadsToReload] in Hq.
           destruct Hq as [Hq|[_ Hq]]; [congruence|].
           right. right. apply Exists_app. right. constructor.
           cbn [snd]. apply Hq.
        -- right. left. rewrite F2. exact Hr.
      * right. right. apply Exists_app. left. exact Hf.
Qed.

(** Whatever answer is delivered, in order or not. *)
Lemma deliver_fresh (n : nat) (net : Net) :
  NetFresh fetch write Settled net ->
  NetFresh fetch write Settled (deliver n net).
Proof.
  intros (Hp & Hw & Hf). unfold deliver.
  destruct (nth_error (wire net) n) as [[o m]|] eqn:E;
    [|repeat split; assumption].
  pose proof (Forall_nth_error _ _ _ _ Hw E) as Hm. cbn [snd] in Hm.
  unfold NetFresh. cbn [client wire].
  split; [apply run_task_tidy; assumption|].
  split; [apply Forall_remove_nth; exact Hw|].
  destruct Hf as [Hf|[Hf|Hf]].
  - left. apply run_task_settled, Hf.
  - right. left. apply run_task_waiting, Hf.
  - destruct (Exists_remove_nth _ n _ _ E Hf) as [Hq|Hr].
    + right. left. apply run_task_leads. exact Hq.
    + right. right. exact Hr.
Qed.

Lemma net_step_fresh (ev : NetEvent) (net : Net) :
  in_order [ev] = true ->
  NetFresh fetch write Settled net ->
  NetFresh fetch write Settled (net_step c ev net).
Proof.
  intros Hev Hnet. destruct ev as [ev|n out|n]; cbn [net_step].
  - destruct (handlers_tidy ev (client net))
      as [(n & out & ->)|[E|(o & m & E & Hm)]]; [exact Hnet| |].
    + destruct ev; try exact Hnet; rewrite E; destruct net; exact Hnet.
    + destruct ev; try exact Hnet; rewrite E; apply task_fresh; assumption.
  - destruct out; [|discriminate Hev]. apply serve_fresh, Hnet.
  - apply deliver_fresh, Hnet.
Qed.

Lemma net_run_fresh (evs : list NetEvent) :
  forall net, in_order evs = true ->
    NetFresh fetch write Settled net ->
    NetFresh fetch write Settled (net_run c evs net).
Proof.
  induction evs as [|ev evs IH]; intros net Hev Hnet; [exact Hnet|].
  cbn [in_order forallb] in Hev. apply andb_prop in Hev as [H1 H2].
  apply IH; [exact H2|]. apply net_step_fresh; [|exact Hnet].
  cbn [in_order forallb]. rewrite H1. reflexivity.
Qed.

End CatchUp.

Lemma handlers_launch (c : Component) (P : Async unit -> Prop) :
  (forall b, P (toggleListening b)) ->
  (forall b code, P (handleKeyPress b code)) ->
  (forall t, P (eff (SetTranscript t))) ->
  (forall now t, P (handleSubmit c now t)) ->
  (forall id data, P (handleUpdateReminder id data)) ->
  (forall id, P (handleDeleteReminder id)) ->
  (forall id data, P (handleUpdateEvent id data)) ->
  (forall id, P (handleDeleteEvent id)) ->
  Launches c P.
Proof.
  intros H1 H2 H3 H4 H5 H6 H7 H8 ev w.
  destruct ev; cbn [step];
    try (left; eauto; fail);
    try (destruct c; [right; left; reflexivity|]);
    try (destruct (isLoading (ui w)); [right; left; reflexivity|]);
    right; right; eauto.
Qed.

Lemma reminders_launch (c : Component) :
  Launches c (Tidy is_reminder_fetch is_reminder_write).
Proof.
  apply handlers_launch; intros; try (destruct c; cbn [handleSubmit]);
    tidy_cases.
Qed.

Lemma events_launch (c : Component) :
  Launches c (Tidy is_event_fetch is_event_write).
Proof.
  apply handlers_launch; intros; try (destruct c; cbn [handleSubmit]);
    tidy_cases.
Qed.

Lemma wholesale_launch (c : Component) : Launches c Wholesale.
Proof.
  apply handlers_launch; intros.
  - apply toggleListening_wholesale.
  - apply handleKeyPress_wholesale.
  - task_cases.
  - apply handleSubmit_wholesale.
  - apply handleUpdateReminder_wholesale.
  - apply handleDeleteReminder_wholesale.
  - apply handleUpdateEvent_wholesale.
  - apply handleDeleteEvent_wholesale.
Qed.

Lemma net_mounted_fresh (fetch write : Call -> bool) (Settled : World -> Prop)
    (rs : ReminderStore B) (es : EventStore B) :
  write GetReminders = false ->
  Settled (mounted rs es) \/ fetch GetReminders = true ->
  NetFresh fetch write Settled (net_mounted rs es).
Proof.
  intros Hw H. unfold net_mounted, mounted, loadReminders. cbn.
  split; [|split; [constructor|]].
  - constructor; [|constructor]. cbn. split; [intros [?|?]; exact I|].
    rewrite Hw. intros E; discriminate E.
  - destruct H as [H|H]; [left; exact H|].
    right. left. constructor. cbn. left. exact H.
Qed.

(** ** Answers that arrive in order *)

Lemma last_some_app {A X : Type} (f : A -> option X) (l : list A) (x : A) :
  last_some f (l ++ [x])
  = match f x with Some y => Some y | None => last_some f l end.
Proof.
  induction l as [|a l IH]; cbn [app last_some].
  - destruct (f x); reflexivity.
  - rewrite IH. destruct (f x); reflexivity.
Qed.

(** A wholesale task puts nothing into a cache when it starts. *)
Lemma wholesale_wire (m : Async unit) :
  Wholesale m ->
  WireOk m /\ installsReminders m = None /\ installsEvents m = None.
Proof.
  intros H. destruct m as [a|e|e k|c k]; cbn; auto.
  destruct H as [He Hk]. unfold WireOk. rewrite He.
  repeat split; try assumption; destruct e; try discriminate He; reflexivity.
Qed.

Lemma run_task_lists (o : Origin) (m : Async unit) :
  forall w, Wholesale m ->
    reminders (ui (run_task o m w)) = reminders (ui w) /\
    events (ui (run_task o m w)) = events (ui w).
Proof.
  induction m as [a|e|e k IH|c k IH]; intros w Hm; cbn [run_task]; auto.
  destruct Hm as [He Hk]. destruct (IH (apply_eff e w) Hk) as [-> ->].
  apply apply_eff_lists. exact He.
Qed.

Lemma run_task_wholesale (o : Origin) (m : Async unit) :
  forall w, Wholesale m ->
    Forall (fun p => Wholesale (Await (awaited p) (resume p))) (pending w) ->
    Forall (fun p => Wholesale (Await (awaited p) (resume p)))
           (pending (run_task o m w)).
Proof.
  induction m as [a|e|e k IH|c k IH]; intros w Hm Hp; cbn [run_task];
    try assumption.
  - destruct Hm as [He Hk]. apply IH; [exact Hk|].
    destruct (apply_eff_frame e w) as (-> & _). assumption.
  - cbn. apply Forall_app; split; [assumption|].
    constructor; [exact Hm|constructor].
Qed.

(** What the delivery of an answer does to the caches. *)
Lemma run_task_wire (o : Origin) (m : Async unit) (w : World) :
  WireOk m ->
  Forall (fun p => Wholesale (Await (awaited p) (resume p))) (pending w) ->
  reminders (ui (run_task o m w))
  = or_else (installsReminders m) (reminders (ui w)) /\
  events (ui (run_task o m w))
  = or_else (installsEvents m) (events (ui w)) /\
  Forall (fun p => Wholesale (Await (awaited p) (resume p)))
         (pending (run_task o m w)).
Proof.
  intros Hm Hp.
  assert (Hplain : Wholesale m ->
    reminders (ui (run_task o m w))
    = or_else (installsReminders m) (reminders (ui w)) /\
    events (ui (run_task o m w))
    = or_else (installsEvents m) (events (ui w)) /\
    Forall (fun p => Wholesale (Await (awaited p) (resume p)))
           (pending (run_task o m w))).
  { intros H. destruct (wholesale_wire m H) as (_ & -> & ->).
    destruct (run_task_lists o m w H) as [-> ->].
    repeat split. apply run_task_wholesale; assumption. }
  destruct m as [a|e|e k|c k]; try (apply Hplain; exact Hm).
  unfold WireOk in Hm. destruct (is_list_write e) eqn:He;
    [|apply Hplain; exact Hm].
  cbn [run_task].
  destruct (run_task_lists o k (apply_eff e w) Hm) as [-> ->].
  split; [|split].
  - destruct e; try discriminate He; reflexivity.
  - destruct e; try discriminate He; reflexivity.
  - apply run_task_wholesale; [exact Hm|].
    destruct (apply_eff_frame e w) as (-> & _). exact Hp.
Qed.

Lemma task_wire (o : Origin) (m : Async unit) (net : Net) :
  Wholesale m -> WireInv net ->
  WireInv (mkNet (run_task o m (client net)) (wire net)).
Proof.
  intros Hm (Hp & Hw & Hr & He). unfold WireInv. cbn [client wire].
  destruct (run_task_lists o m (client net) Hm) as [-> ->].
  destruct (run_task_frame o m (client net)) as (-> & -> & _).
  repeat split; try assumption. apply run_task_wholesale; assumption.
Qed.

Lemma serve_wire (n : nat) (out : Outcome) (net : Net) :
  WireInv net -> WireInv (serve n out net).
Proof.
  intros (Hp & Hw & Hr & He). unfold serve.
  destruct (nth_error (pending (client net)) n) as [p|] eqn:E;
    [|repeat split; assumption].
  pose proof (Forall_nth_error _ _ _ _ Hp E) as Hk.
  pose proof (Forall_remove_nth _ n _ Hp) as Hp'.
  destruct p as [o c0 k]; cbn [awaited resume origin] in *.
  assert (Hplain : forall w2 m,
    Wholesale m -> ui w2 = ui (client net) ->
    pending w2 = remove_nth n (pending (client net)) ->
    lastReminders w2 = lastReminders (client net) ->
    lastEvents w2 = lastEvents (client net) ->
    WireInv (mkNet w2 (wire net ++ [(o, m)]))).
  { intros w2 m Hm E1 E2 E3 E4. unfold WireInv. cbn [client wire].
    destruct (wholesale_wire m Hm) as (Hok & HR & HE).
    rewrite E1, E2, E3, E4, !last_some_app. cbn [snd]. rewrite HR, HE.
    repeat split; try assumption.
    apply Forall_app; split; [assumption|]. constructor; [exact Hok|constructor]. }
  destruct out as [|e].
  - destruct c0; cbn [perform];
      try (apply Hplain; [exact (Hk (Ok tt))|reflexivity..]).
    + cbv beta iota zeta.
      match goal with
      | |- context [(o, k ?r)] =>
          specialize (Hk r); cbn [installs] in Hk;
          destruct (k r) as [?|?|e' k'|? ?]; try contradiction
      end.
      destruct Hk as [-> Hk']. unfold WireInv. cbn [client wire].
      rewrite !last_some_app. cbn. repeat split; try assumption.
      apply Forall_app; split; [assumption|].
      constructor; [exact Hk'|constructor].
    + cbv beta iota zeta.
      match goal with
      | |- context [(o, k ?r)] =>
          specialize (Hk r); cbn [installs] in Hk;
          destruct (k r) as [?|?|e' k'|? ?]; try contradiction
      end.
      destruct Hk as [-> Hk']. unfold WireInv. cbn [client wire].
      rewrite !last_some_app. cbn. repeat split; try assumption.
      apply Forall_app; split; [assumption|].
      constructor; [exact Hk'|constructor].
    + apply Hplain; [exact (Hk (Ok (getAIResponse B t)))|reflexivity..].
  - specialize (Hk (Err e)). cbn [Wholesale] in Hk.
    rewrite installs_rejected in Hk.
    apply Hplain; [exact Hk|reflexivity..].
Qed.

(** The oldest answer on the wire is delivered. *)
Lemma deliver_wire (net : Net) : WireInv net -> WireInv (deliver 0 net).
Proof.
  intros Hnet. pose proof Hnet as (Hp & Hw & Hr & He). unfold deliver.
  destruct (wire net) as [|[o m] rest] eqn:E; [exact Hnet|]. clear Hnet.
  cbn [nth_error remove_nth].
  inversion Hw as [|? ? Hm Hrest]; subst. cbn [snd] in Hm.
  destruct (run_task_wire o m (client net) Hm Hp) as (ER & EE & Hp').
  destruct (run_task_frame o m (client net)) as (LR & LE & _).
  unfold WireInv. cbn [client wire]. rewrite ER, EE, LR, LE, Hr, He.
  cbn [last_some snd].
  repeat split; try assumption.
  - destruct (last_some (fun om => installsReminders (snd om)) rest);
      reflexivity.
  - destruct (last_some (fun om => installsEvents (snd om)) rest);
      reflexivity.
Qed.

Lemma net_step_wire (c : Component) (ev : NetEvent) (net : Net) :
  in_order [ev] = true -> WireInv net -> WireInv (net_step c ev net).
Proof.
  intros Hev Hnet. destruct ev as [ev|n out|n]; cbn [net_step].
  - destruct (wholesale_launch c ev (client net))
      as [(n & out & ->)|[E|(o & m & E & Hm)]]; [exact Hnet| |].
    + destruct ev; try exact Hnet; rewrite E; destruct net; exact Hnet.
    + destruct ev; try exact Hnet; rewrite E; apply task_wire; assumption.
  - apply serve_wire, Hnet.
  - destruct n; [|discriminate Hev]. apply deliver_wire, Hnet.
Qed.

Lemma net_run_wire (c : Component) (evs : list NetEvent) :
  forall net, in_order evs = true -> WireInv net ->
              WireInv (net_run c evs net).
Proof.
  induction evs as [|ev evs IH]; intros net Hev Hnet; [exact Hnet|].
  cbn [in_order forallb] in Hev. apply andb_prop in Hev as [H1 H2].
  apply IH; [exact H2|]. apply net_step_wire; [|exact Hnet].
  cbn [in_order forallb]. rewrite H1. reflexivity.
Qed.

Lemma net_mounted_wire (rs : ReminderStore B) (es : EventStore B) :
  WireInv (net_mounted rs es).
Proof.
  unfold WireInv, net_mounted, mounted. cbn.
  repeat split; constructor; [|constructor].
  apply loadReminders_wholesale.
Qed.

(** X13.  When no call is rejected and the answers arrive in the order in
    which the server gave them, the reminders cache catches up with the
    store: in every state reached from the mount with no request and no
    answer on the way, the cached reminders are what [list()] answers,
    whatever the order in which the requests were served and however user
    events were interleaved. *)
Theorem reminders_catch_up_in_order
    (c : Component) (rs : ReminderStore B) (es : EventStore B)
    (evs : list NetEvent) :
  in_order evs = true ->
  let net := net_run c evs (net_mounted rs es) in
  pending (client net) = [] -> wire net = [] ->
  reminders (ui (client net)) = snd (perform GetReminders (client net)).
Proof.
  intros Hev net Hidle Hwire.
  destruct (net_run_wire c evs _ Hev (net_mounted_wire rs es))
    as (_ & _ & Hr & _).
  assert (Hf : NetFresh is_reminder_fetch is_reminder_write
                 reminders_settled net).
  { apply net_run_fresh; try assumption.
    - unfold reminders_settled. intros w0 w' -> _ -> _ H. exact H.
    - intros c0 w0 H. destruct c0; try discriminate H. reflexivity.
    - intros c0 w0 H1 H2 H. destruct c0; try discriminate; exact H.
    - apply reminders_launch.
    - apply net_mounted_fresh; [reflexivity|]. right. reflexivity. }
  fold net in Hr. destruct Hf as (_ & _ & Hf).
  rewrite Hidle, Hwire in Hf. rewrite Hwire in Hr. cbn in Hr.
  destruct Hf as [Hf|[Hf|Hf]]; [|inversion Hf|inversion Hf].
  unfold reminders_settled in Hf. rewrite Hf in Hr. cbn in Hr.
  rewrite <- Hr. reflexivity.
Qed.

(** X14.  Likewise for the events, which are not fetched at mount: when
    no call is rejected and the answers arrive in the order in which they
    were given, in every state reached from the mount with no request and
    no answer on the way, the cached events are what [list()] answers, or
    they are still the initial empty list and the event store has not been
    written since the mount. *)
Theorem events_catch_up_in_order
    (c : Component) (rs : ReminderStore B) (es : EventStore B)
    (evs : list NetEvent) :
  in_order evs = true ->
  let net := net_run c evs (net_mounted rs es) in
  pending (client net) = [] -> wire net = [] ->
  events (ui (client net)) = snd (perform GetEvents (client net)) \/
  (events (ui (client net)) = [] /\ eventStore (client net) = es).
Proof.
  intros Hev net Hidle Hwire.
  destruct (net_run_wire c evs _ Hev (net_mounted_wire rs es))
    as (_ & _ & _ & He).
  assert (Hf : NetFresh is_event_fetch is_event_write (events_settled es) net).
  { apply net_run_fresh; try assumption.
    - unfold events_settled. intros w0 w' _ -> _ -> H. exact H.
    - intros c0 w0 H. destruct c0; try discriminate H. left. reflexivity.
    - intros c0 w0 H1 H2 H. destruct c0; try discriminate; exact H.
    - apply events_launch.
    - apply net_mounted_fresh; [reflexivity|]. left. right.
      split; reflexivity. }
  fold net in He. destruct Hf as (_ & _ & Hf).
  rewrite Hidle, Hwire in Hf. rewrite Hwire in He. cbn in He.
  destruct Hf as [[Hf|[Hf1 Hf2]]|[Hf|Hf]]; [| |inversion Hf|inversion Hf].
  - left. rewrite Hf in He. cbn in He. rewrite <- He. reflexivity.
  - right. rewrite Hf1 in He. cbn in He. split; [symmetry; exact He|exact Hf2].
Qed.

(** ** Answers that overtake one another *)

Lemma serve_last (net : Net) (p : list Pending) (q : Pending) (out : Outcome) :
  pending (client net) = (p ++ [q])%list ->
  serve (List.length p) out net =
  match out with
  | Fulfil =>
      let (w2, v) := perform (awaited q) (with_pending p (client net)) in
      mkNet w2 (wire net ++ [(origin q, resume q (Ok v))])
  | Reject e =>
      mkNet (with_pending p (client net))
            (wire net ++ [(origin q, resume q (Err e))])
  end.
Proof.
  intros H. unfold serve. rewrite H, nth_error_last, remove_nth_last.
  reflexivity.
Qed.

(** Rewrites the innermost [serve] of the goal, [p] being the requests
    that were waiting before the run. *)
Ltac serve_inner p :=
  match goal with
  | |- context [serve ?n ?o ?net0] =>
      lazymatch net0 with
      | context [serve _ _ _] => fail
      | _ => rewrite (serve_last net0 p _ o eq_refl)
      end
  end.

(** X15.  Nothing orders or discards the answers of [getReminders].  Take
    two edits of reminders, the second made after the reload of the first
    was answered; if the answer of the second write and then the answer of
    the second reload overtake the answer of the first reload, the cache
    ends with the list as it was after the first write, while the store
    has both: nothing was rejected and nothing is on the way any more. *)
Theorem stale_answer_overtaken
    (c : Component) (ed1 ed2 : Edit) (net : Net) :
  on_reminders ed1 = true -> on_reminders ed2 = true -> wire net = [] ->
  let n := List.length (pending (client net)) in
  let w1 := fst (perform (edit_call ed1) (client net)) in
  let w2 := fst (perform (edit_call ed2) w1) in
  let net' :=
    net_run c [Ui (edit_event ed1); Serve n Fulfil; Deliver 0;
               Serve n Fulfil;
               Ui (edit_event ed2); Serve n Fulfil; Deliver 1;
               Serve n Fulfil; Deliver 1; Deliver 0] net in
  reminderStore (client net') = reminderStore w2 /\
  reminders (ui (client net')) = getReminders B (reminderStore w1) /\
  pending (client net') = pending (client net) /\
  wire net' = [] /\
  unhandled (client net') = unhandled (client net).
Proof.
  intros H1 H2 Hwire n w1 w2 net'. subst net' w2 w1 n.
  destruct net as [w l]. cbn [wire client] in *. subst l.
  unfold net_run. cbn [fold_left].
  destruct ed1; try discriminate H1; destruct ed2; try discriminate H2;
    cbn [net_step edit_event edit_call step];
    unfold handleUpdateReminder, handleDeleteReminder; cbn;
    do 4 (serve_inner (pending w); cbn);
    repeat split.
Qed.

(** ** The events before they are used *)

Lemma mount_with_speech (rs : ReminderStore B) (es : EventStore B) :
  mount WithSpeech rs es = mounted rs es.
Proof. reflexivity. Qed.

Lemma step_voice_no_events (es : EventStore B) (ev : UIEvent) (w : World) :
  touches_events VoiceCalendarAssistant ev = false ->
  KeptBy (fun w => events (ui w) = [] /\ eventStore w = es)
         leaves_events (fun c => negb (on_event_store c)) w ->
  KeptBy (fun w => events (ui w) = [] /\ eventStore w = es)
         leaves_events (fun c => negb (on_event_store c))
         (step VoiceCalendarAssistant ev w).
Proof.
  intros Hev Hw.
  assert (Heff : forall e w0, leaves_events e = true ->
                   events (ui w0) = [] /\ eventStore w0 = es ->
                   events (ui (apply_eff e w0)) = [] /\
                   eventStore (apply_eff e w0) = es)
    by (intros e w0 He H0; destruct e; cbn in *; try discriminate; assumption).
  assert (Hperf : forall c0 w0, negb (on_event_store c0) = true ->
                    events (ui w0) = [] /\ eventStore w0 = es ->
                    events (ui (fst (perform c0 w0))) = [] /\
                    eventStore (fst (perform c0 w0)) = es)
    by (intros c0 w0 Hc H0; destruct c0; cbn in *; try discriminate; assumption).
  assert (Hframe : forall w0 w', ui w' = ui w0 -> capturing w' = capturing w0 ->
                     reminderStore w' = reminderStore w0 ->
                     eventStore w' = eventStore w0 ->
                     events (ui w0) = [] /\ eventStore w0 = es ->
                     events (ui w') = [] /\ eventStore w' = es)
    by (intros w0 w' -> _ _ -> H0; exact H0).
  destruct ev; cbn in Hev; try discriminate Hev; cbn [step];
    try (apply (settle_within _ _ _ Heff Hperf Hframe); assumption);
    (apply (run_task_within _ _ _ Heff Hframe); [|assumption]);
    handler_within.
Qed.

(** X8.  The events are fetched neither at mount nor later on their own.
    Whatever the browser, the mount effect sends the fetch of the
    reminders and nothing else, or, where the recognizer cannot be
    constructed, throws before any call is sent; nothing is cached by it.
    And in a browser with the recognizer, as long as the user neither
    submits nor edits or deletes an event, in every state reached the
    cached events are empty, the event store is as it was at mount and no
    call to the event store was sent, whatever the store holds. *)
Theorem events_unfetched_until_used
    (c : Component) (env : Browser) (rs : ReminderStore B) (es : EventStore B)
    (evs : list UIEvent) :
  forallb (fun ev => negb (touches_events c ev)) evs = true ->
  let w0 := mount env rs es in
  let w := run c evs (mount WithSpeech rs es) in
  (issued w0 = match env with WithoutSpeech => [] | _ => [GetReminders] end /\
   List.length (pending w0) = List.length (issued w0) /\
   (unhandled w0 = [] <-> env <> WithoutSpeech) /\
   ui w0 = ui (initial rs es)) /\
  events (ui w) = [] /\ eventStore w = es /\
  Forall (fun c0 => on_event_store c0 = false) (issued w).
Proof.
  intros Hev w0 w. split.
  { subst w0. destruct env; cbn; repeat split;
      intros; try discriminate; try congruence. }
  assert (Hw : KeptBy (fun w => events (ui w) = [] /\ eventStore w = es)
                 leaves_events (fun c => negb (on_event_store c)) w).
  { subst w. revert Hev.
    assert (H0 : KeptBy (fun w => events (ui w) = [] /\ eventStore w = es)
                   leaves_events (fun c => negb (on_event_store c))
                   (mount WithSpeech rs es)).
    { unfold mount, mountEffect, loadReminders.
      cbn; repeat split; repeat constructor;
        intros [?|?]; task_cases. }
    revert H0. generalize (mount WithSpeech rs es).
    induction evs as [|ev evs IH]; intros w1 H0 Hev; [exact H0|].
    cbn [forallb] in Hev. apply andb_prop in Hev as [He1 He2].
    apply negb_true_iff in He1.
    change (run c (ev :: evs) w1) with (run c evs (step c ev w1)).
    apply IH; [|exact He2].
    destruct c; [apply step_app_no_events; exact H0|].
    apply step_voice_no_events; assumption. }
  destruct Hw as ((H1 & H2) & Hi & _). repeat split; try assumption.
  eapply Forall_impl; [|exact Hi]. intros c0 H. cbn in H.
  destruct (on_event_store c0); [discriminate|reflexivity].
Qed.

End Controller.

Arguments Ret {B A} a.
Arguments Throw {B A} e.
Arguments Eff {B A} e k.
Arguments Await {B A} c k.
Arguments GetReminders {B}.
Arguments AddReminder {B} d.
Arguments GetEvents {B}.
Arguments AddEvent {B} d.
Arguments GetAIResponse {B} t.
Arguments ClickToggle {B}.
Arguments KeyDown {B} code target.
Arguments SpeechResult {B} t.
Arguments InputChange {B} v.
Arguments ClickSubmit {B} now.
Arguments Settle {B} n out.
Arguments isListening {B} c.
Arguments transcript {B} c.
Arguments reminders {B} c.
Arguments aiResponse {B} c.
Arguments isLoading {B} c.
Arguments events {B} c.
Arguments ui {B} w.
Arguments capturing {B} w.
Arguments reminderStore {B} w.
Arguments eventStore {B} w.
Arguments pending {B} w.
Arguments issued {B} w.
Arguments console {B} w.
Arguments unhandled {B} w.
Arguments perform {B} c w.
Arguments inflight {B} l.
Arguments count {B} f l.
Arguments is_create {B} c.
Arguments is_query {B} c.
Arguments lastReminders {B} w.
Arguments client {B} n.
Arguments wire {B} n.
Arguments Ui {B} ev.
Arguments Serve {B} n out.
Arguments Deliver {B} n.

(** ** The theorems at work on the list-backed stores *)

(** C1: the example of the specification. *)
Lemma processTranscript_first_on_at_witness :
  processTranscript clock0 "remind me to call mom on 2024-06-01 at 15:30"
  = mkDraft (str "2024-06-01") (str "15:30")
            "remind me to call mom on 2024-06-01 at 15:30".
Proof.
  apply (processTranscript_first_on_at clock0
           "remind me to call mom on 2024-06-01 at 15:30"
           ["remind"; "me"; "to"; "call"; "mom"] [] "2024-06-01" "15:30").
  - reflexivity.
  - cbn. intuition discriminate.
  - cbn. intuition discriminate.
  - discriminate.
Defined.

(** C1 as first stated fails: an earlier "on" takes the date. *)
Lemma processTranscript_earlier_on_counterexample :
  ~ (forall (now : UTCFields) (s : string) (pre post : list string)
            (D T : string),
        split " " s = (pre ++ ["on"; D; "at"; T] ++ post)%list ->
        processTranscript now s = mkDraft (str D) (str T) s).
Proof.
  intros H.
  specialize (H clock0 "turn on the light on 2024-06-01 at 15:30"
                ["turn"; "on"; "the"; "light"] [] "2024-06-01" "15:30"
                eq_refl).
  vm_compute in H. discriminate H.
Qed.

Lemma processTranscript_defaults_witness :
  processTranscript clock0 "buy milk tomorrow"
  = mkDraft (str "2024-05-17") (str "12:00") "buy milk tomorrow".
Proof.
  apply (processTranscript_defaults clock0 "buy milk tomorrow");
    cbn; intuition discriminate.
Defined.

(** C8: a recognizer that answers 1 June 2024, one that finds nothing and
    one that answers an Invalid Date, on a text with two times. *)
Lemma processNaturalLanguage_time_date_witness :
  let s := "Lunch at 7:05 or 12:30" in
  FirstClock s "7:05" /\
  (exists d,
      processNaturalLanguage (fixedNatural (mkUTC 2024 6 1 0 0 0 0)) clock0 s
      = Ok d /\
      text d = s /\ time d = str "7:05" /\ date d = str "2024-06-01") /\
  (exists d,
      processNaturalLanguage noNatural clock0 s = Ok d /\
      text d = s /\ time d = str "7:05" /\ date d = str "2024-05-17") /\
  processNaturalLanguage badNatural clock0 s
  = Err "RangeError: Invalid time value".
Proof.
  intros s.
  assert (H1 : FirstClock s "7:05") by (apply regexExec_first; reflexivity).
  split; [exact H1|]. split; [|split].
  - destruct (processNaturalLanguage_time_date
                (fixedNatural (mkUTC 2024 6 1 0 0 0 0)) clock0 s)
      as (_ & _ & H).
    destruct H as (d & E & Ht & Hm & _ & Hd & _); [cbn; discriminate|].
    exists d. split; [exact E|]. split; [exact Ht|].
    split; [exact (Hm _ H1)|exact (Hd _ eq_refl)].
  - destruct (processNaturalLanguage_time_date noNatural clock0 s)
      as (_ & _ & H).
    destruct H as (d & E & Ht & Hm & _ & _ & Hd); [cbn; discriminate|].
    exists d. split; [exact E|]. split; [exact Ht|].
    split; [exact (Hm _ H1)|exact (Hd eq_refl)].
  - destruct (processNaturalLanguage_time_date badNatural clock0 s)
      as (_ & H & _).
    exact (H eq_refl).
Defined.

(** With a recognizer that answers an Invalid Date the extractor raises,
    and a submit of [VoiceCalendarAssistant] ends with the failure message
    without sending a call. *)
Lemma submit_with_invalid_date :
  processNaturalLanguage badNatural clock0 "tomorrow at 7:05"
  = Err "RangeError: Invalid time value" /\
  let w :=
    run listBackend badNatural VoiceCalendarAssistant
        [Settle 0 Fulfil; InputChange "tomorrow at 7:05"; ClickSubmit clock0]
        (mounted listBackend [] []) in
  aiResponse (ui w) = failureMessage /\
  transcript (ui w) = "tomorrow at 7:05" /\
  issued w = [GetReminders] /\ isLoading (ui w) = false.
Proof. vm_compute. repeat split. Qed.

(** C4: a click while the first submit waits for its create call. *)
Lemma submit_reentry_guard_witness :
  let w :=
    run listBackend noNatural App
        [Settle 0 Fulfil; InputChange "call mom on 2024-06-01 at 15:30";
         ClickSubmit clock0]
        (mounted listBackend [] []) in
  isLoading (ui w) = true /\
  step listBackend noNatural App (ClickSubmit clock0) w = w.
Proof.
  intros w. split; [reflexivity|].
  apply (proj1 (submit_reentry_guard listBackend noNatural App) w clock0).
  reflexivity.
Defined.

(** C5: a submit of [App] that goes through. *)
Lemma submit_success_witness :
  let w :=
    run listBackend noNatural App
        [Settle 0 Fulfil; InputChange "call mom on 2024-06-01 at 15:30"]
        (mounted listBackend [] []) in
  let w' :=
    run listBackend noNatural App
        [ClickSubmit clock0; Settle 0 Fulfil; Settle 0 Fulfil; Settle 0 Fulfil]
        w in
  transcript (ui w') = "" /\
  aiResponse (ui w') = "You said: call mom on 2024-06-01 at 15:30" /\
  reminders (ui w') = snd (perform GetReminders w').
Proof.
  intros w w'.
  destruct (submit_success listBackend noNatural App w clock0
              (processTranscript clock0 (transcript (ui w)))
              eq_refl eq_refl)
    as (H1 & H2 & _ & _ & _ & _ & H3 & _).
  split; [exact H1|]. split; [exact H2|exact H3].
Defined.

(** C5 as first stated fails twice.  In [App], when the create and the
    query are fulfilled and the reload is rejected, the transcript stays,
    the reply is overwritten by the failure message and the cache misses
    the new reminder.  In [VoiceCalendarAssistant], a submit that goes
    through reloads the events only: the reminders cache, empty because the
    fetch at mount was rejected, still differs from the reminder store. *)
Lemma submit_success_counterexample :
  (let w :=
     run listBackend noNatural App
         [Settle 0 Fulfil; InputChange "call mom on 2024-06-01 at 15:30"]
         (mounted listBackend [] []) in
   let w' :=
     run listBackend noNatural App
         [ClickSubmit clock0; Settle 0 Fulfil; Settle 0 Fulfil;
          Settle 0 (Reject "offline")] w in
   transcript (ui w') <> "" /\
   aiResponse (ui w') <> getAIResponse listBackend (transcript (ui w)) /\
   reminders (ui w') <> snd (perform GetReminders w')) /\
  (let w :=
     run listBackend noNatural VoiceCalendarAssistant
         [Settle 0 (Reject "offline"); InputChange "call mom at 15:30"]
         (mounted listBackend
            [mkEntry 1 "water the plants"
               (mkDraft (str "2024-05-18") (str "08:00") "water the plants")]
            []) in
   let w' :=
     run listBackend noNatural VoiceCalendarAssistant
         [ClickSubmit clock0; Settle 0 Fulfil; Settle 0 Fulfil; Settle 0 Fulfil]
         w in
   transcript (ui w') = "" /\
   events (ui w') = snd (perform GetEvents w') /\
   reminders (ui w') <> snd (perform GetReminders w')).
Proof.
  split; vm_compute; repeat split; try discriminate; reflexivity.
Qed.

(** C6: the create call of [App] is rejected. *)
Lemma submit_create_fails_witness :
  let w :=
    run listBackend noNatural App
        [Settle 0 Fulfil; InputChange "call mom on 2024-06-01 at 15:30"]
        (mounted listBackend [] []) in
  let w' :=
    run listBackend noNatural App
        [ClickSubmit clock0; Settle 0 (Reject "offline")] w in
  transcript (ui w') = "call mom on 2024-06-01 at 15:30" /\
  aiResponse (ui w') = failureMessage /\
  reminders (ui w') = [] /\
  issued w' = (issued w ++ [AddReminder
                              (mkDraft (str "2024-06-01") (str "15:30")
                                 "call mom on 2024-06-01 at 15:30")])%list.
Proof.
  intros w w'.
  destruct (submit_create_fails listBackend noNatural App w clock0
              (processTranscript clock0 (transcript (ui w))) "offline"
              eq_refl eq_refl)
    as (H1 & H2 & H3 & _ & H4 & _).
  split; [exact H1|]. split; [exact H2|]. split; [exact H3|exact H4].
Defined.

(** C7: the Enter key is not the space key. *)
Lemma space_key_toggles_witness :
  let w := mounted listBackend [] [] in
  step listBackend noNatural App (KeyDown "Enter" Body) w = w.
Proof.
  intros w.
  apply (proj2 (proj2 (space_key_toggles listBackend noNatural App w Body))).
  discriminate.
Defined.

(** C7 as first stated fails: the space key typed into the text input
    starts the capture. *)
Lemma space_key_in_input_counterexample :
  let w := mounted listBackend [] [] in
  let w' := step listBackend noNatural App (KeyDown "Space" TextInput) w in
  isListening (ui w) = false /\ isListening (ui w') = true /\
  capturing w' = true.
Proof. vm_compute. repeat split. Qed.

(** C10: the create of [App] is fulfilled, the query rejected; the new
    reminder is in the store and not in the cache. *)
Lemma submit_query_fails_witness :
  let w :=
    run listBackend noNatural App
        [Settle 0 Fulfil; InputChange "call mom on 2024-06-01 at 15:30"]
        (mounted listBackend [] []) in
  let w' :=
    run listBackend noNatural App
        [ClickSubmit clock0; Settle 0 Fulfil; Settle 0 (Reject "offline")] w in
  transcript (ui w') = "call mom on 2024-06-01 at 15:30" /\
  aiResponse (ui w') = failureMessage /\
  reminderStore w'
  = [mkEntry 1 "call mom on 2024-06-01 at 15:30"
       (mkDraft (str "2024-06-01") (str "15:30")
          "call mom on 2024-06-01 at 15:30")] /\
  reminders (ui w') <> snd (perform GetReminders w').
Proof.
  intros w w'.
  destruct (submit_query_fails listBackend noNatural App w clock0
              (processTranscript clock0 (transcript (ui w))) "offline"
              eq_refl eq_refl)
    as (H1 & H2 & _ & _ & _ & _ & _ & H3 & H4).
  split; [exact H1|]. split; [exact H2|]. split; [exact H3|].
  apply H4; [reflexivity|discriminate].
Defined.

(** ** The further properties at work *)

(** X2: the example of the specification, put together from its words. *)
Lemma processTranscript_utterance_witness :
  let s := join " " ["remind"; "me"; "to"; "call"; "mom";
                     "on"; "2024-06-01"; "at"; "15:30"] in
  s = "remind me to call mom on 2024-06-01 at 15:30" /\
  processTranscript clock0 s = mkDraft (str "2024-06-01") (str "15:30") s.
Proof.
  split; [reflexivity|].
  apply (processTranscript_utterance clock0
           ["remind"; "me"; "to"; "call"; "mom"] [] "2024-06-01" "15:30").
  - repeat constructor.
  - cbn. intuition discriminate.
  - cbn. intuition discriminate.
  - discriminate.
Defined.

Lemma extractors_part_on_time_witness :
  time (processTranscript clock0 "call mom 7:30 tomorrow") = str "12:00" /\
  exists d,
    processNaturalLanguage noNatural clock0 "call mom 7:30 tomorrow" = Ok d /\
    time d = str "7:30".
Proof.
  apply (extractors_part_on_time noNatural clock0
           "call mom 7:30 tomorrow" "7:30").
  - cbn. intuition discriminate.
  - apply regexExec_first. reflexivity.
  - cbn. discriminate.
Defined.

Lemma toggle_twice_witness :
  let w := mounted listBackend [] [] in
  step listBackend noNatural App ClickToggle
    (step listBackend noNatural App ClickToggle w) = w.
Proof.
  intros w.
  apply (proj2 (proj2 (toggle_twice listBackend noNatural App w))).
  reflexivity.
Defined.

(** X6: editing the text of the one reminder of the store. *)
Lemma edit_then_reload_witness :
  let e1 := mkEntry 1 "water the plants"
              (mkDraft (str "2024-05-18") (str "08:00") "water the plants") in
  let w :=
    run listBackend noNatural App [Settle 0 Fulfil]
        (mounted listBackend [e1] []) in
  let w' :=
    run listBackend noNatural App
        [SubmitReminderForm listBackend 1%nat "water the garden";
         Settle 0 Fulfil; Settle 0 Fulfil] w in
  reminders (ui w')
  = [mkEntry 1 "water the garden"
       (mkDraft (str "2024-05-18") (str "08:00") "water the plants")].
Proof.
  intros e1 w w'.
  destruct (edit_then_reload listBackend noNatural App
              (EditReminder listBackend 1%nat "water the garden") w eq_refl)
    as (_ & _ & _ & _ & _ & H & _).
  exact (proj1 H).
Defined.

(** X7: the delete of the reminder is rejected. *)
Lemma edit_failures_unhandled_witness :
  let e1 := mkEntry 1 "water the plants"
              (mkDraft (str "2024-05-18") (str "08:00") "water the plants") in
  let w :=
    run listBackend noNatural App [Settle 0 Fulfil]
        (mounted listBackend [e1] []) in
  let w' :=
    run listBackend noNatural App
        [ClickDeleteReminder listBackend 1%nat; Settle 0 (Reject "offline")] w in
  ui w' = ui w /\ reminderStore w' = [e1] /\ unhandled w' = ["offline"].
Proof.
  intros e1 w w'.
  destruct (proj1 (edit_failures_unhandled listBackend noNatural App
                     (RemoveReminder listBackend 1%nat) w "offline" eq_refl))
    as (_ & _ & H1 & H2 & _ & _ & H3).
  split; [exact H1|]. split; [exact H2|exact H3].
Defined.

(** X9: the create goes through, the query is rejected, nothing is left
    to settle for the third event. *)
Lemma submit_always_ends_witness :
  let w :=
    run listBackend noNatural App
        [Settle 0 Fulfil; InputChange "call mom on 2024-06-01 at 15:30"]
        (mounted listBackend [] []) in
  let w' :=
    run listBackend noNatural App
        [ClickSubmit clock0; Settle 0 Fulfil; Settle 0 (Reject "offline");
         Settle 0 Fulfil] w in
  isLoading (ui w') = false /\ pending w' = [] /\ unhandled w' = [].
Proof.
  intros w w'.
  destruct (submit_always_ends listBackend noNatural App w clock0
              Fulfil (Reject "offline") Fulfil eq_refl)
    as (H1 & H2 & H3 & _).
  split; [exact H1|]. split; [exact H2|exact H3].
Defined.

(** X10: text typed during a submit that succeeds is wiped. *)
Lemma typing_during_submit_witness :
  let w :=
    run listBackend noNatural App
        [Settle 0 Fulfil; InputChange "call mom on 2024-06-01 at 15:30"]
        (mounted listBackend [] []) in
  let w' :=
    run listBackend noNatural App
        [ClickSubmit clock0; InputChange "buy milk";
         Settle 0 Fulfil; Settle 0 Fulfil; Settle 0 Fulfil] w in
  transcript (ui w') = "" /\
  aiResponse (ui w') = "You said: call mom on 2024-06-01 at 15:30".
Proof.
  intros w w'.
  destruct (proj1 (typing_during_submit listBackend noNatural App w clock0
                     (processTranscript clock0 (transcript (ui w)))
                     "buy milk" eq_refl eq_refl))
    as (H1 & H2 & _).
  split; [exact H1|exact H2].
Defined.

(** X8: a page with one event in the store; the mount fetch is answered,
    the user toggles the capture, types and edits a reminder. *)
Lemma events_unfetched_until_used_witness :
  let e1 := mkEntry 1 "dentist"
              (mkDraft (str "2024-05-20") (str "10:00") "dentist") in
  let w :=
    run listBackend noNatural VoiceCalendarAssistant
        [Settle 0 Fulfil; ClickToggle; InputChange "water the plants";
         SubmitReminderForm listBackend 1%nat "water the garden";
         Settle 0 Fulfil; Settle 0 Fulfil]
        (mount listBackend WithSpeech [] [e1]) in
  issued (mount listBackend WithoutSpeech [] [e1]) = [] /\
  events (ui w) = [] /\ eventStore w = [e1].
Proof.
  intros e1 w.
  destruct (events_unfetched_until_used listBackend noNatural
              VoiceCalendarAssistant WithoutSpeech [] [e1]
              [Settle 0 Fulfil; ClickToggle; InputChange "water the plants";
               SubmitReminderForm listBackend 1%nat "water the garden";
               Settle 0 Fulfil; Settle 0 Fulfil] eq_refl)
    as ((H0 & _) & H1 & H2 & _).
  split; [exact H0|]. split; [exact H1|exact H2].
Defined.

(** X13: the mount fetch and an edit with its reload, every answer
    arriving in the order it was given. *)
Lemma reminders_catch_up_in_order_witness :
  let e1 := mkEntry 1 "water the plants"
              (mkDraft (str "2024-05-18") (str "08:00") "water the plants") in
  let net :=
    net_run listBackend noNatural App
        [Serve 0 Fulfil; Deliver 0;
         Ui (SubmitReminderForm listBackend 1%nat "water the garden");
         Serve 0 Fulfil; Deliver 0; Serve 0 Fulfil; Deliver 0]
        (net_mounted listBackend [e1] []) in
  reminders (ui (client net))
  = [mkEntry 1 "water the garden"
       (mkDraft (str "2024-05-18") (str "08:00") "water the plants")].
Proof.
  intros e1 net.
  exact (reminders_catch_up_in_order listBackend noNatural App [e1] []
           [Serve 0 Fulfil; Deliver 0;
            Ui (SubmitReminderForm listBackend 1%nat "water the garden");
            Serve 0 Fulfil; Deliver 0; Serve 0 Fulfil; Deliver 0]
           eq_refl eq_refl eq_refl).
Defined.

(** X14: a submit of [VoiceCalendarAssistant] on a store that holds an
    event already, every answer arriving in the order it was given. *)
Lemma events_catch_up_in_order_witness :
  let e1 := mkEntry 1 "dentist"
              (mkDraft (str "2024-05-20") (str "10:00") "dentist") in
  let net :=
    net_run listBackend noNatural VoiceCalendarAssistant
        [Serve 0 Fulfil; Deliver 0;
         Ui (InputChange "call mom at 15:30"); Ui (ClickSubmit clock0);
         Serve 0 Fulfil; Deliver 0; Serve 0 Fulfil; Deliver 0;
         Serve 0 Fulfil; Deliver 0]
        (net_mounted listBackend [] [e1]) in
  events (ui (client net))
  = [e1; mkEntry 2 "call mom at 15:30"
           (mkDraft (str "2024-05-17") (str "15:30") "call mom at 15:30")].
Proof.
  intros e1 net.
  destruct (events_catch_up_in_order listBackend noNatural
              VoiceCalendarAssistant [] [e1]
              [Serve 0 Fulfil; Deliver 0;
               Ui (InputChange "call mom at 15:30"); Ui (ClickSubmit clock0);
               Serve 0 Fulfil; Deliver 0; Serve 0 Fulfil; Deliver 0;
               Serve 0 Fulfil; Deliver 0]
              eq_refl eq_refl eq_refl) as [H|[H _]].
  - exact H.
  - vm_compute in H. discriminate H.
Defined.

(** X15: an edit and then a delete of the one reminder; the answer of the
    first reload arrives last and brings the deleted reminder back into
    the cache. *)
Lemma stale_answer_overtaken_witness :
  let e1 := mkEntry 1 "water the plants"
              (mkDraft (str "2024-05-18") (str "08:00") "water the plants") in
  let net0 :=
    net_run listBackend noNatural App [Serve 0 Fulfil; Deliver 0]
        (net_mounted listBackend [e1] []) in
  let net :=
    net_run listBackend noNatural App
        [Ui (SubmitReminderForm listBackend 1%nat "water the garden");
         Serve 0 Fulfil; Deliver 0; Serve 0 Fulfil;
         Ui (ClickDeleteReminder listBackend 1%nat);
         Serve 0 Fulfil; Deliver 1; Serve 0 Fulfil; Deliver 1; Deliver 0]
        net0 in
  reminderStore (client net) = [] /\
  reminders (ui (client net))
  = [mkEntry 1 "water the garden"
       (mkDraft (str "2024-05-18") (str "08:00") "water the plants")] /\
  pending (client net) = [] /\ wire net = [].
Proof.
  intros e1 net0 net.
  destruct (stale_answer_overtaken listBackend noNatural App
              (EditReminder listBackend 1%nat "water the garden")
              (RemoveReminder listBackend 1%nat) net0
              eq_refl eq_refl eq_refl)
    as (H1 & H2 & H3 & H4 & _).
  split; [exact H1|]. split; [exact H2|]. split; [exact H3|exact H4].
Defined.

(** ** The clock's day is the UTC day *)

(** C2 as first stated fails for the local day: at 23:30 UTC on 17 May
    2024, in a zone two hours east of Greenwich, the local day is 18 May
    and the default date is 17 May. *)
Lemma processTranscript_local_day_counterexample :
  ~ (forall (i : Instant) (s : string),
        ~ In "on" (split " " s) -> ~ In "at" (split " " s) ->
        processTranscript (utcNow i) s
        = mkDraft (str (localDate i)) (str "12:00") s).
Proof.
  intros H.
  assert (Hon : ~ In "on" (split " " "buy milk tomorrow"))
    by (cbn; intuition discriminate).
  assert (Hat : ~ In "at" (split " " "buy milk tomorrow"))
    by (cbn; intuition discriminate).
  specialize (H (mkInstant 1715988600000 120) "buy milk tomorrow" Hon Hat).
  vm_compute in H. discriminate H.
Qed.

(** C8 as first stated fails twice.  With a recognizer that answers an
    Invalid Date nothing is returned: [toISOString] raises.  And with a
    recognizer that finds nothing, the date falls back to the UTC day of
    the clock, which at 23:30 UTC in a zone two hours east of Greenwich is
    the day before the local day. *)
Lemma processNaturalLanguage_counterexample :
  processNaturalLanguage badNatural clock0 "lunch tomorrow 12:30"
  = Err "RangeError: Invalid time value" /\
  (let i := mkInstant 1715988600000 120 in
   processNaturalLanguage noNatural (utcNow i) "lunch tomorrow 12:30"
   = Ok (mkDraft (str "2024-05-17") (str "12:30") "lunch tomorrow 12:30") /\
   localDate i = "2024-05-18").
Proof. vm_compute. repeat split. Qed.
